(** * gitbackup: listing parsers, credential embedding and mirror sync

    A shallow embedding of [lib/backup.go] (package [gitbackup]) and the
    properties of its repository listing and synchronisation logic.

    The Go program calls into the Go standard library ([strings], [fmt],
    [path/filepath], [encoding/json], [net/http], [os], [os/exec]).  The pure
    library functions are written out below as executable definitions (Unix
    semantics); the operating system, the network and the [git] executable
    are an abstract machine whose answers the program reads and whose calls
    are recorded in a trace. *)

From Stdlib Require Import Ascii.
From stdpp Require Import base option list strings sorting gmap.

Set Warnings "-register-all".

(** ** Go strings: [strings], [fmt] *)

Module GoStrings.

(** [strings.HasPrefix(s, prefix)]. *)
Fixpoint HasPrefix (s prefix : string) : bool :=
  match prefix, s with
  | EmptyString, _ => true
  | String p prefix', String c s' =>
      if decide (p = c) then HasPrefix s' prefix' else false
  | String _ _, EmptyString => false
  end.

(** [s[n:]] for [n <= len(s)]. *)
Fixpoint drop_bytes (n : nat) (s : string) : string :=
  match n, s with
  | O, _ => s
  | S n', String _ s' => drop_bytes n' s'
  | S _, EmptyString => EmptyString
  end.

(** [strings.Contains(s, substr)]. *)
Fixpoint Contains (s substr : string) : bool :=
  if HasPrefix s substr then true
  else match s with
       | EmptyString => false
       | String _ s' => Contains s' substr
       end.

(** [strings.Replace(s, old, new, 1)]: the first (leftmost) occurrence of
    [old] in [s] is replaced by [new]; [s] is returned as it is when [old]
    does not occur.  An empty [old] matches at the beginning of [s].  Both
    call sites of the program pass the count 1. *)
Fixpoint Replace (s old new : string) : string :=
  if HasPrefix s old then new +:+ drop_bytes (String.length old) s
  else match s with
       | EmptyString => EmptyString
       | String c s' => String c (Replace s' old new)
       end.

(** [fmt.Sprintf(format, args...)] for formats whose only verb is [%s] and
    string operands.  A verb without operand prints [%!s(MISSING)], as in
    Go; every call site supplies as many operands as verbs. *)
Fixpoint Sprintf (format : string) (args : list string) : string :=
  match format with
  | EmptyString => EmptyString
  | String c rest =>
      match rest with
      | String v rest' =>
          if decide (c = "%"%char /\ v = "s"%char) then
            match args with
            | a :: args' => a +:+ Sprintf rest' args'
            | [] => "%!s(MISSING)" +:+ Sprintf rest' []
            end
          else String c (Sprintf rest args)
      | EmptyString => String c EmptyString
      end
  end.

(** [strings.Join(elems, sep)]. *)
Fixpoint Join (elems : list string) (sep : string) : string :=
  match elems with
  | [] => EmptyString
  | [e] => e
  | e :: elems' => e +:+ sep +:+ Join elems' sep
  end.

(** The double quote character, for the messages that quote a name. *)
Definition dquote : string := String "034"%char EmptyString.

End GoStrings.

(** ** Go paths: [path/filepath] on Unix *)

Module filepath.
Import GoStrings.

Definition Separator : ascii := "/"%char.

(** The elements of a path between separators (some may be empty). *)
Fixpoint elements (path : string) : list string :=
  match path with
  | EmptyString => [EmptyString]
  | String c path' =>
      if decide (c = Separator) then EmptyString :: elements path'
      else match elements path' with
           | e :: es => String c e :: es
           | [] => [String c EmptyString]
           end
  end.

(** One step of [Clean]'s scan.  [out] holds the elements written so far,
    last one first.  An empty element and [.] are dropped; [..] removes the
    last real element when there is one, is kept in front of a path that is
    not rooted, and is dropped at the root. *)
Definition clean_step (rooted : bool) (out : list string) (e : string)
  : list string :=
  if decide (e = "" \/ e = ".") then out
  else if decide (e = "..") then
    match out with
    | top :: out' =>
        if decide (top = "..") then (if rooted then out else e :: out)
        else out'
    | [] => if rooted then out else [e]
    end
  else e :: out.

(** [filepath.Clean(path)]: the shortest path name equivalent to [path] by
    purely lexical processing. *)
Definition Clean (path : string) : string :=
  if decide (path = "") then "."
  else
    let rooted := HasPrefix path "/" in
    let out := foldl (clean_step rooted) [] (elements path) in
    let body := Join (reverse out) "/" in
    if rooted then "/" +:+ body
    else if decide (body = "") then "." else body.

(** [filepath.Join(elem...)]: leading empty elements are ignored, the rest
    is joined with the separator and cleaned; the result is empty when all
    elements are. *)
Fixpoint Join (elem : list string) : string :=
  match elem with
  | [] => ""
  | e :: elem' =>
      if decide (e = "") then Join elem'
      else Clean (GoStrings.Join elem "/")
  end.

End filepath.

(** ** Go errors and decoded JSON: [encoding/json] *)

(** A Go [error], identified with the text of its [Error()] method. *)
Definition error : Type := string.

(** [fmt.Errorf(format, args...)]. *)
Definition Errorf (format : string) (args : list string) : error :=
  GoStrings.Sprintf format args.

Module json.

(** A well-formed JSON text, as the decoder reads it.  The members of an
    object are kept in the order of the text, duplicates included. *)
Inductive value : Type :=
| Null
| Bool (b : bool)
| Number (literal : string)
| Str (s : string)
| Array (items : list value)
| Object (members : list (string * value)).

(** A byte slice handed to [json.Unmarshal]: the body of a response or a
    [json.RawMessage].  It either is one well-formed JSON text or makes the
    decoder fail with a syntax error. *)
Inductive RawMessage : Type :=
| Malformed (syntax_error : error)
| Encoded (v : value).

(** The nil [RawMessage], which indexing a map at an absent key yields. *)
Definition nil_RawMessage : RawMessage :=
  Malformed "unexpected end of JSON input".

(** [m[key]] for [m] of type [map[string]json.RawMessage]. *)
Definition index (m : gmap string value) (key : string) : RawMessage :=
  match m !! key with
  | Some v => Encoded v
  | None => nil_RawMessage
  end.

(** The [Value] field of an [UnmarshalTypeError]. *)
Definition describe (v : value) : string :=
  match v with
  | Null => "null"
  | Bool _ => "bool"
  | Number _ => "number"
  | Str _ => "string"
  | Array _ => "array"
  | Object _ => "object"
  end.

(** The [Error()] text of an [UnmarshalTypeError]. *)
Definition UnmarshalTypeError (v : value) (type : string) : error :=
  "json: cannot unmarshal " +:+ describe v +:+ " into Go value of type " +:+ type.

(** Decoding in sequence, stopping at the first error. *)
Fixpoint traverse {A B : Type} (f : A → B + error) (l : list A) : list B + error :=
  match l with
  | [] => inl []
  | x :: l' =>
      match f x with
      | inr e => inr e
      | inl y =>
          match traverse f l' with
          | inr e => inr e
          | inl ys => inl (y :: ys)
          end
      end
  end.

(** A JSON object stored into a Go map: a later member replaces an earlier
    one of the same key. *)
Definition store {B : Type} (members : list (string * B)) : gmap string B :=
  foldl (λ m kv, <[kv.1 := kv.2]> m) ∅ members.

(** The member of an object that a map decoded from it holds at [key]. *)
Definition member (members : list (string * value)) (key : string) : option value :=
  store members !! key.

(** Decoding into a [map[string]T]; JSON null leaves the map nil (empty). *)
Definition into_map {B : Type} (elem : value → B + error) (type : string)
    (v : value) : gmap string B + error :=
  match v with
  | Null => inl ∅
  | Object members =>
      match traverse (λ kv, match elem kv.2 with
                             | inl b => inl (kv.1, b)
                             | inr e => inr e
                             end) members with
      | inl kvs => inl (store kvs)
      | inr e => inr e
      end
  | _ => inr (UnmarshalTypeError v type)
  end.

(** Decoding into a [[]T]; JSON null leaves the slice nil (empty). *)
Definition into_slice {B : Type} (elem : value → B + error) (type : string)
    (v : value) : list B + error :=
  match v with
  | Null => inl []
  | Array items => traverse elem items
  | _ => inr (UnmarshalTypeError v type)
  end.

(** Decoding into a [string]; JSON null leaves it empty. *)
Definition into_string (v : value) : string + error :=
  match v with
  | Null => inl ""
  | Str s => inl s
  | _ => inr (UnmarshalTypeError v "string")
  end.

(** Decoding into an [interface{}] or a [json.RawMessage] keeps the value. *)
Definition into_any (v : value) : value + error := inl v.

Definition Unmarshal {B : Type} (into : value → B + error) (data : RawMessage)
  : B + error :=
  match data with
  | Malformed e => inr e
  | Encoded v => into v
  end.

(** [json.Unmarshal(data, &x)] at the types the program decodes into. *)

(** [x string] *)
Definition Unmarshal_string : RawMessage → string + error :=
  Unmarshal into_string.

(** [x map[string]json.RawMessage] *)
Definition Unmarshal_map_RawMessage : RawMessage → gmap string value + error :=
  Unmarshal (into_map into_any "map[string]json.RawMessage").

(** [x []map[string]json.RawMessage] *)
Definition Unmarshal_slice_map_RawMessage
  : RawMessage → list (gmap string value) + error :=
  Unmarshal (into_slice (into_map into_any "map[string]json.RawMessage")
               "[]map[string]json.RawMessage").

(** [x []map[string]interface{}] *)
Definition Unmarshal_slice_map_interface
  : RawMessage → list (gmap string value) + error :=
  Unmarshal (into_slice (into_map into_any "map[string]interface {}")
               "[]map[string]interface {}").

(** [x []map[string]string] *)
Definition Unmarshal_slice_map_string
  : RawMessage → list (gmap string string) + error :=
  Unmarshal (into_slice (into_map into_string "map[string]string")
               "[]map[string]string").

(** The type assertion [s, _ := x.(string)] on a map element [x]: the empty
    string when the key is absent or the element is not a string. *)
Definition assert_string (x : option value) : string :=
  match x with
  | Some (Str s) => s
  | _ => ""
  end.

(** [%s] applied to a [map[string]string] and to a slice of them: keys in
    increasing order. *)
Definition format_map (m : gmap string string) : string :=
  "map[" +:+
  GoStrings.Join ((λ kv, kv.1 +:+ ":" +:+ kv.2) <$>
                  merge_sort (λ a b : string * string, String.le a.1 b.1)
                             (map_to_list m)) " "
  +:+ "]".

Definition format_slice_map (l : list (gmap string string)) : string :=
  "[" +:+ GoStrings.Join (format_map <$> l) " " +:+ "]".

End json.

(** ** The machine: network, file system and external commands *)

(** The error numbers [os.Stat] can fail with. *)
Inductive Errno : Type :=
| ENOENT | EACCES | EPERM | ENOTDIR | ELOOP | ENAMETOOLONG | EIO.

(** [os.IsNotExist(err)], for the [err] of [os.Stat] ([None] is [nil]). *)
Definition IsNotExist (err : option Errno) : bool :=
  match err with
  | Some ENOENT => true
  | _ => false
  end.

(** An [exec.Cmd]: the command line and the working directory (empty: the
    directory of the calling process). *)
Record Cmd : Type := { Args : list string; Dir : string }.

(** What [http.Get] followed by [ioutil.ReadAll] of the body produces. *)
Inductive http_response : Type :=
| GetError (err : error)
| ReadError (err : error)
| Body (contents : json.RawMessage).

(** What the program does to the outside, in order. *)
Inductive event : Type :=
| LogPrintf (line : string)
| Println (line : string)
| Printf (format : string)
| HttpGet (url : string)
| Stat (name : string)
| CombinedOutput (cmd : Cmd).

Record machine : Type := {
  world : Type;
  http : world → string → http_response;
  stat : world → string → option Errno;
  run : world → Cmd → (string * option error) * world
}.

(** Computations: the state of the world and the trace so far are threaded
    through every call. *)
Definition M (K : machine) (A : Type) : Type :=
  world K * list event → A * (world K * list event).

Global Instance M_ret (K : machine) : MRet (M K) := λ A a s, (a, s).
Global Instance M_bind (K : machine) : MBind (M K) :=
  λ A B f m s, let '(a, s') := m s in f a s'.

Section Effects.
Context {K : machine}.

Definition emit (e : event) : M K unit :=
  λ s, (tt, (s.1, s.2 ++ [e])).

Definition log_Printf (format : string) (args : list string) : M K unit :=
  emit (LogPrintf (GoStrings.Sprintf format args)).

Definition fmt_Println (operands : list string) : M K unit :=
  emit (Println (GoStrings.Join operands " ")).

Definition fmt_Printf (format : string) : M K unit :=
  emit (Printf format).

Definition http_Get (url : string) : M K http_response :=
  λ s, (http K s.1 url, (s.1, s.2 ++ [HttpGet url])).

Definition os_Stat (name : string) : M K (option Errno) :=
  λ s, (stat K s.1 name, (s.1, s.2 ++ [Stat name])).

Definition cmd_CombinedOutput (cmd : Cmd) : M K (string * option error) :=
  λ s, let '(r, w) := run K s.1 cmd in (r, (w, s.2 ++ [CombinedOutput cmd])).

(** The empty statement. *)
Definition skip : M K unit := mret tt.

(** [for _, x := range l { body(x) }] *)
Fixpoint for_range {A : Type} (l : list A) (body : A → M K unit) : M K unit :=
  match l with
  | [] => mret tt
  | x :: l' => body x ;; for_range l' body
  end.

End Effects.

(** ** The program: [lib/backup.go] *)

Record repository : Type := { name : string; cloneURL : string }.

Global Instance repository_inhabited : Inhabited repository :=
  populate {| name := ""; cloneURL := "" |}.

(** [make([]repository, n)] *)
Definition make_repositories (n : nat) : list repository :=
  replicate n {| name := ""; cloneURL := "" |}.

Import GoStrings.

Section Program.
Context {K : machine}.

(** [exec.Command("git", "clone", "--mirror", cloneURL, cloneDirectory)],
    line 195. *)
Definition clone_command (cloneURL cloneDirectory : string) : Cmd :=
  {| Args := ["git"; "clone"; "--mirror"; cloneURL; cloneDirectory]; Dir := "" |}.

(** [exec.Command("git", "fetch", "-p", cloneURL)] with [cmd.Dir] set to
    [cloneDirectory], lines 209-210. *)
Definition fetch_command (cloneURL cloneDirectory : string) : Cmd :=
  {| Args := ["git"; "fetch"; "-p"; cloneURL]; Dir := cloneDirectory |}.

(** [backupRepository], lines 186-222. *)
Definition backupRepository
    (targetName repoName cloneURL backupDirectory : string) : M K unit :=
  let cloneDirectory := filepath.Join [backupDirectory; targetName; repoName] in
  fmt_Println [Sprintf "#> %s" [repoName]] ;;
  log_Printf ("Backing up repo " +:+ dquote +:+ "%s" +:+ dquote) [repoName] ;;
  err ← os_Stat cloneDirectory ;
  if IsNotExist err then
    log_Printf "Cloning %s to %s" [cloneURL; cloneDirectory] ;;
    ' (cmdOut, err) ← cmd_CombinedOutput (clone_command cloneURL cloneDirectory) ;
    match err with
    | Some e => fmt_Println ["Error cloning the repository:"; e]
    | None =>
        fmt_Println ["Cloned repository."] ;;
        if decide (0 < String.length cmdOut) then fmt_Printf cmdOut else skip
    end
  else
    log_Printf "Pulling git repo in %s" [cloneDirectory] ;;
    ' (cmdOut, err) ← cmd_CombinedOutput (fetch_command cloneURL cloneDirectory) ;
    match err with
    | Some e => fmt_Println ["Error pulling in the repository:"; e]
    | None =>
        fmt_Println ["Pulled latest updates in the repository."] ;;
        if decide (0 < String.length cmdOut) then fmt_Printf cmdOut else skip
    end.

(** The request of [getGitHubRepoList], lines 63-68. *)
Definition github_requestURL (target : gmap string string) : string :=
  Sprintf "https://api.github.com/%s/%s/repos?access_token=%s&per_page=200"
    [target !!! "type"; target !!! "entity"; target !!! "token"].

(** The request of [getBitBucketRepoList], lines 110-115. *)
Definition bitbucket_requestURL (target : gmap string string) : string :=
  Sprintf "https://%s:%s@bitbucket.org/api/2.0/repositories/%s?page=1&pagelen=100"
    [target !!! "entity"; target !!! "password"; target !!! "entity"].

(** The credential embedding of [getGitHubRepoList], lines 92-97. *)
Definition github_cloneURL (target : gmap string string) (cloneURL : string)
  : string :=
  Replace cloneURL "https://"
    (Sprintf "https://%s:%s@" [target !!! "entity"; target !!! "token"]).

(** The loop of [getGitHubRepoList], lines 89-99, from index [i] on. *)
Fixpoint github_range (target : gmap string string)
    (dat : list (gmap string json.value)) (i : nat)
    (repoList : list repository) : list repository :=
  match dat with
  | [] => repoList
  | repo :: dat' =>
      let repoName := json.assert_string (repo !! "name") in
      let cloneURL := json.assert_string (repo !! "clone_url") in
      let cloneURL := github_cloneURL target cloneURL in
      github_range target dat' (S i)
        (<[i := {| name := repoName; cloneURL := cloneURL |}]> repoList)
  end.

(** The decoding of the response body in [getGitHubRepoList], lines 81-102. *)
Definition github_decode (target : gmap string string)
    (contents : json.RawMessage) : list repository * option error :=
  match json.Unmarshal_slice_map_interface contents with
  | inr err => ([], Some (Errorf "Failed to parse JSON: %s" [err]))
  | inl dat =>
      (github_range target dat 0 (make_repositories (length dat)), None)
  end.

(** [getGitHubRepoList], lines 61-103. *)
Definition getGitHubRepoList (target : gmap string string)
    (backupDirectory : string) : M K (list repository * option error) :=
  let requestURL := github_requestURL target in
  response ← http_Get requestURL ;
  match response with
  | GetError err =>
      mret ([], Some (Errorf
        "Failed to connect with the source to retrieve the list of repositories: %s"
        [err]))
  | ReadError err =>
      mret ([], Some (Errorf "Failed to retrieve the list of repositories: %s" [err]))
  | Body contents => mret (github_decode target contents)
  end.

(** The credential embedding of [getBitBucketRepoList], lines 167-172. *)
Definition bitbucket_cloneURL (target : gmap string string) (cloneURL : string)
  : string :=
  Replace cloneURL
    (Sprintf "https://%s@" [target !!! "entity"])
    (Sprintf "https://%s:%s@" [target !!! "entity"; target !!! "password"]).

(** The search for the https link, lines 156-161. *)
Definition https_link (cloneLinks : list (gmap string string)) : string :=
  foldl (λ cloneURL link,
           if decide (link !!! "name" = "https") then link !!! "href"
           else cloneURL)
        "" cloneLinks.

(** The body of the loop of [getBitBucketRepoList], lines 141-174: the
    repository of one item, or the error the function returns. *)
Definition bitbucket_item (target : gmap string string)
    (repo : gmap string json.value) : repository + error :=
  match json.Unmarshal_string (json.index repo "name") with
  | inr err => inr (Errorf "Failed to parse JSON: %s" [err])
  | inl repoName =>
  match json.Unmarshal_map_RawMessage (json.index repo "links") with
  | inr err => inr (Errorf "Failed to parse JSON: %s" [err])
  | inl links =>
  match json.Unmarshal_slice_map_string (json.index links "clone") with
  | inr err => inr (Errorf "Failed to parse JSON: %s" [err])
  | inl cloneLinks =>
      let cloneURL := https_link cloneLinks in
      if decide (cloneURL = "") then
        inr (Errorf "Could not determine HTTPS cloning URL: %s"
               [json.format_slice_map cloneLinks])
      else
        let cloneURL := bitbucket_cloneURL target cloneURL in
        inl {| name := repoName; cloneURL := cloneURL |}
  end end end.

(** The loop of [getBitBucketRepoList], lines 140-178, from index [i] on. *)
Fixpoint bitbucket_range (target : gmap string string)
    (data : list (gmap string json.value)) (i : nat)
    (repoList : list repository) : list repository * option error :=
  match data with
  | [] => (repoList, None)
  | repo :: data' =>
      match bitbucket_item target repo with
      | inr err => ([], Some err)
      | inl r => bitbucket_range target data' (S i) (<[i := r]> repoList)
      end
  end.

(** The decoding of the response body in [getBitBucketRepoList], lines
    128-178. *)
Definition bitbucket_decode (target : gmap string string)
    (contents : json.RawMessage) : list repository * option error :=
  match json.Unmarshal_map_RawMessage contents with
  | inr err => ([], Some (Errorf "Failed to parse JSON: %s" [err]))
  | inl metadata =>
      match json.Unmarshal_slice_map_RawMessage (json.index metadata "values") with
      | inr err => ([], Some (Errorf "Failed to parse JSON: %s" [err]))
      | inl data =>
          bitbucket_range target data 0 (make_repositories (length data))
      end
  end.

(** [getBitBucketRepoList], lines 107-179. *)
Definition getBitBucketRepoList (target : gmap string string)
    (backupDirectory : string) : M K (list repository * option error) :=
  let requestURL := bitbucket_requestURL target in
  response ← http_Get requestURL ;
  match response with
  | GetError err =>
      mret ([], Some (Errorf
        "Failed to connect with the source to retrieve the list of repositories: %s"
        [err]))
  | ReadError err =>
      mret ([], Some (Errorf "Failed to retrieve the list of repositories: %s" [err]))
  | Body contents => mret (bitbucket_decode target contents)
  end.

(** [BackupTarget], lines 28-57. *)
Definition BackupTarget (target : gmap string string) (backupDirectory : string)
  : M K (option error) :=
  log_Printf ("Backing up target " +:+ dquote +:+ "%s" +:+ dquote)
    [target !!! "name"] ;;
  ' (repoList, err) ←
    (if decide (target !!! "source" = "github") then
       getGitHubRepoList target backupDirectory
     else if decide (target !!! "source" = "bitbucket") then
       getBitBucketRepoList target backupDirectory
     else
       mret ([], Some (Errorf (dquote +:+ "%s" +:+ dquote +:+
                                 " is not a recognized source type")
                         [target !!! "source"]))) ;
  match err with
  | Some e => mret (Some e)
  | None =>
      for_range repoList (λ repo,
        backupRepository (target !!! "name") (name repo) (cloneURL repo)
          backupDirectory) ;;
      mret None
  end.


End Program.

(** ** A concrete machine

    The world is the set of existing paths and the set of paths [os.Stat] is
    denied access to; the network answers by a fixed table; [git clone]
    succeeds silently and creates its destination, every other command
    succeeds silently and changes nothing. *)

Module Sim.

Record files : Type := { present : gset string; denied : gset string }.

Definition sim_stat (w : files) (name : string) : option Errno :=
  if decide (name ∈ denied w) then Some EACCES
  else if decide (name ∈ present w) then None
  else Some ENOENT.

Definition sim_run (w : files) (cmd : Cmd) : (string * option error) * files :=
  match Args cmd with
  | [_; "clone"; _; _; dir] =>
      (("", None), {| present := {[dir]} ∪ present w; denied := denied w |})
  | _ => (("", None), w)
  end.

Definition sim (responses : string → http_response) : machine :=
  {| world := files;
     http := λ _ url, responses url;
     stat := sim_stat;
     run := sim_run |}.

Definition empty_files : files := {| present := ∅; denied := ∅ |}.

(** A network that answers every request with the same body. *)
Definition serve (v : json.value) : string → http_response :=
  λ _, Body (json.Encoded v).

(** Running a computation from a world and an empty trace. *)
Definition exec {K : machine} {A : Type} (m : M K A) (w : world K)
  : A * (world K * list event) := m (w, []).

End Sim.

(** The pieces of an execution. *)
Definition result {K : machine} {A : Type} (r : A * (world K * list event)) : A :=
  r.1.
Definition final {K : machine} {A : Type} (r : A * (world K * list event))
  : world K := r.2.1.
Definition trace {K : machine} {A : Type} (r : A * (world K * list event))
  : list event := r.2.2.

(** The external commands and the network requests of a trace. *)
Definition commands (tr : list event) : list Cmd :=
  omap (λ e, match e with CombinedOutput c => Some c | _ => None end) tr.
Definition requests (tr : list event) : list string :=
  omap (λ e, match e with HttpGet u => Some u | _ => None end) tr.

(** ** The scenarios of the specification *)

Module Scenario.
Import json.

Definition github_target : gmap string string :=
  {[ "name" := "acme"; "source" := "github"; "type" := "orgs";
     "entity" := "acme-co"; "token" := "T" ]}.

Definition github_objects : list (list (string * value)) :=
  [ [("name", Str "infra");
     ("clone_url", Str "https://github.com/acme-co/infra.git")] ].

Definition github_payload : value := Array (Object <$> github_objects).


(** A listing whose URL has a scheme in front of [https://]. *)
Definition github_scheme_objects : list (list (string * value)) :=
  [ [("name", Str "infra");
     ("clone_url", Str "git+https://github.com/acme-co/infra.git")] ].

Definition bitbucket_target : gmap string string :=
  {[ "name" := "bb1"; "source" := "bitbucket"; "entity" := "bbuser";
     "password" := "P" ]}.

Definition bitbucket_repoX : value :=
  Object [("name", Str "repoX");
          ("links", Object [("clone",
             Array [Object [("name", Str "https");
                            ("href", Str "https://bbuser@bitbucket.org/bbuser/repoX.git")]])])].

(** An item whose only clone link is the ssh one. *)
Definition bitbucket_repoY : value :=
  Object [("name", Str "repoY");
          ("links", Object [("clone",
             Array [Object [("name", Str "ssh");
                            ("href", Str "ssh://git@bitbucket.org/bbuser/repoY.git")]])])].

Definition bitbucket_envelope (items : list value) : list (string * value) :=
  [("pagelen", Number "100"); ("values", Array items); ("page", Number "1")].

Definition gitlab_target : gmap string string :=
  {[ "name" := "gl"; "source" := "gitlab"; "entity" := "someone";
     "token" := "T" ]}.

End Scenario.

(** ** What a sync leaves in the trace *)

(** The lines printed once the command has returned [out]: the error, or
    the success message followed by the output of the command if any. *)
Definition outcome (failure success : string) (out : string * option error)
  : list event :=
  match out.2 with
  | Some e => [Println (failure +:+ " " +:+ e)]
  | None =>
      Println success ::
      (if decide (0 < String.length out.1) then [Printf out.1] else [])
  end.

(** The events that precede the command, for the message [announce]. *)
Definition prologue (repoName cloneDirectory announce : string) : list event :=
  [ Println ("#> " +:+ repoName);
    LogPrintf ("Backing up repo " +:+ GoStrings.dquote +:+ repoName
               +:+ GoStrings.dquote);
    Stat cloneDirectory;
    LogPrintf announce ].

(** The trace of a sync that clones. *)
Definition clone_trace (K : machine) (w : world K)
    (repoName cloneURL cloneDirectory : string) : list event :=
  prologue repoName cloneDirectory
    ("Cloning " +:+ cloneURL +:+ " to " +:+ cloneDirectory)
  ++ [CombinedOutput (clone_command cloneURL cloneDirectory)]
  ++ outcome "Error cloning the repository:" "Cloned repository."
       (run K w (clone_command cloneURL cloneDirectory)).1.

(** The trace of a sync that fetches. *)
Definition fetch_trace (K : machine) (w : world K)
    (repoName cloneURL cloneDirectory : string) : list event :=
  prologue repoName cloneDirectory ("Pulling git repo in " +:+ cloneDirectory)
  ++ [CombinedOutput (fetch_command cloneURL cloneDirectory)]
  ++ outcome "Error pulling in the repository:"
       "Pulled latest updates in the repository."
       (run K w (fetch_command cloneURL cloneDirectory)).1.

(** ** Where the decoding of a bitbucket listing can fail *)

(** The failures of one item: its name, its links, its clone links, or no
    clone link named [https]. *)
Inductive item_failure (repo : gmap string json.value) : Prop :=
| fail_name (e : error) :
    json.Unmarshal_string (json.index repo "name") = inr e →
    item_failure repo
| fail_links (e : error) :
    json.Unmarshal_map_RawMessage (json.index repo "links") = inr e →
    item_failure repo
| fail_clone (links : gmap string json.value) (e : error) :
    json.Unmarshal_map_RawMessage (json.index repo "links") = inl links →
    json.Unmarshal_slice_map_string (json.index links "clone") = inr e →
    item_failure repo
| fail_https (links : gmap string json.value) (cloneLinks : list (gmap string string)) :
    json.Unmarshal_map_RawMessage (json.index repo "links") = inl links →
    json.Unmarshal_slice_map_string (json.index links "clone") = inl cloneLinks →
    (∀ link, link ∈ cloneLinks → link !!! "name" ≠ "https") →
    item_failure repo.

(** The failures of a listing: the envelope, its [values], or one item. *)
Inductive listing_failure (contents : json.RawMessage) : Prop :=
| fail_envelope (e : error) :
    json.Unmarshal_map_RawMessage contents = inr e →
    listing_failure contents
| fail_values (metadata : gmap string json.value) (e : error) :
    json.Unmarshal_map_RawMessage contents = inl metadata →
    json.Unmarshal_slice_map_RawMessage (json.index metadata "values") = inr e →
    listing_failure contents
| fail_item (metadata : gmap string json.value)
    (data : list (gmap string json.value)) (repo : gmap string json.value) :
    json.Unmarshal_map_RawMessage contents = inl metadata →
    json.Unmarshal_slice_map_RawMessage (json.index metadata "values") = inl data →
    repo ∈ data →
    item_failure repo →
    listing_failure contents.

(** ** What a backup leaves in the trace *)

(** The paths [os.Stat] was called on, in order. *)
Definition stats (tr : list event) : list string :=
  omap (λ e, match e with Stat n => Some n | _ => None end) tr.

(** The mirror path [BackupTarget] makes [backupRepository] use for a
    repository of a target, lines 48-53 and 187. *)
Definition mirror_path (target : gmap string string) (backupDirectory : string)
    (repo : repository) : string :=
  filepath.Join [backupDirectory; target !!! "name"; name repo].

(** [cmd] is the git command of the sync of [repo]: the mirror clone of its
    URL into its mirror path, or the pruning fetch of its URL run there. *)
Definition sync_command (target : gmap string string) (backupDirectory : string)
    (repo : repository) (cmd : Cmd) : Prop :=
  cmd = clone_command (cloneURL repo) (mirror_path target backupDirectory repo) ∨
  cmd = fetch_command (cloneURL repo) (mirror_path target backupDirectory repo).

(** The [switch] of [BackupTarget] on the source of the target, lines
    32-41. *)
Definition list_repositories {K : machine} (target : gmap string string)
    (backupDirectory : string) : M K (list repository * option error) :=
  if decide (target !!! "source" = "github") then
    getGitHubRepoList target backupDirectory
  else if decide (target !!! "source" = "bitbucket") then
    getBitBucketRepoList target backupDirectory
  else
    mret ([], Some (Errorf (GoStrings.dquote +:+ "%s" +:+ GoStrings.dquote +:+
                              " is not a recognized source type")
                      [target !!! "source"])).

(** The request of the listing of a target of a recognised source. *)
Definition request_of (target : gmap string string) : string :=
  if decide (target !!! "source" = "github") then github_requestURL target
  else bitbucket_requestURL target.

(** A machine whose git always fails: every command prints a diagnostic
    and returns an error, and changes nothing. *)
Definition broken_git (responses : string → http_response) : machine :=
  {| world := Sim.files;
     http := λ _ url, responses url;
     stat := Sim.sim_stat;
     run := λ w _, (("fatal: unable to access the remote", Some "exit status 128"), w) |}.

(** What [Clean] keeps of the elements it has scanned: elements that are
    not empty, not [.], and do not start with a separator. *)
Definition kept (e : string) : Prop :=
  e ≠ "" ∧ e ≠ "." ∧ GoStrings.HasPrefix e "/" = false.


(** A path element that names a directory entry: not empty, neither [.] nor
    [..], and without separator. *)
Definition plain_name (e : string) : Prop :=
  e ≠ "" ∧ e ≠ "." ∧ e ≠ ".." ∧ filepath.elements e = [e].

(** The entry [e] of the directory [dir], for a cleaned [dir]. *)
Definition entry_of (dir e : string) : string :=
  if decide (dir = "/") then "/" +:+ e
  else if decide (dir = ".") then e
  else dir +:+ "/" +:+ e.

(** * Properties *)

(** ** Strings *)

Section StringFacts.
Import GoStrings.

Lemma string_app_cons c s t : String c s +:+ t = String c (s +:+ t).
Proof. reflexivity. Qed.

Lemma string_app_empty_l s : "" +:+ s = s.
Proof. reflexivity. Qed.

Lemma string_app_empty_r s : s +:+ "" = s.
Proof. induction s as [|c s IH]; [done|]. by rewrite string_app_cons, IH. Qed.

Lemma string_app_assoc s t u : (s +:+ t) +:+ u = s +:+ t +:+ u.
Proof. induction s as [|c s IH]; [done|]. by rewrite !string_app_cons, IH. Qed.

Lemma HasPrefix_app (p s : string) : HasPrefix (p +:+ s) p = true.
Proof.
  induction p as [|c p IH]; [by destruct s|].
  rewrite string_app_cons. simpl. by rewrite decide_True.
Qed.

Lemma drop_bytes_app (p s : string) : drop_bytes (String.length p) (p +:+ s) = s.
Proof. induction p as [|c p IH]; [done|]. by rewrite string_app_cons. Qed.

Lemma Replace_unfold (s old new : string) :
  Replace s old new =
  if HasPrefix s old then new +:+ drop_bytes (String.length old) s
  else match s with
       | EmptyString => EmptyString
       | String c s' => String c (Replace s' old new)
       end.
Proof. by destruct s. Qed.

Lemma Contains_unfold (s substr : string) :
  Contains s substr =
  if HasPrefix s substr then true
  else match s with
       | EmptyString => false
       | String _ s' => Contains s' substr
       end.
Proof. by destruct s. Qed.

Lemma Replace_at_prefix (old new rest : string) :
  Replace (old +:+ rest) old new = new +:+ rest.
Proof. by rewrite Replace_unfold, HasPrefix_app, drop_bytes_app. Qed.

Lemma Replace_absent (s old new : string) :
  Contains s old = false → Replace s old new = s.
Proof.
  induction s as [|c s IH]; rewrite Contains_unfold, Replace_unfold;
    destruct (HasPrefix _ old); try done.
  intros H. by rewrite IH.
Qed.

(** The occurrence that [Replace] rewrites is the leftmost one. *)
Lemma Replace_leftmost (pre old new post : string) :
  (∀ k, k < String.length pre →
        HasPrefix (drop_bytes k (pre +:+ old +:+ post)) old = false) →
  Replace (pre +:+ old +:+ post) old new = pre +:+ new +:+ post.
Proof.
  induction pre as [|c pre IH]; intros H.
  - exact (Replace_at_prefix old new post).
  - rewrite Replace_unfold.
    rewrite (H 0 ltac:(simpl; lia) : HasPrefix (String c pre +:+ old +:+ post) old = false).
    rewrite !string_app_cons. f_equal. apply IH.
    intros k Hk. apply (H (S k)). simpl. lia.
Qed.

Lemma Contains_app (a s b : string) : Contains (a +:+ s +:+ b) s = true.
Proof.
  induction a as [|c a IH]; rewrite Contains_unfold.
  - by rewrite string_app_empty_l, HasPrefix_app.
  - rewrite string_app_cons. by destruct (HasPrefix _ s).
Qed.

End StringFacts.

(** ** Paths: the examples of the Go documentation *)

Example Clean_doc_1 : filepath.Clean "abc//def//ghi" = "abc/def/ghi".
Proof. reflexivity. Qed.
Example Clean_doc_2 : filepath.Clean "abc/def/../ghi/../jkl" = "abc/jkl".
Proof. reflexivity. Qed.
Example Clean_doc_3 : filepath.Clean "/../abc" = "/abc".
Proof. reflexivity. Qed.
Example Clean_doc_4 : filepath.Clean "../../abc/./../def/" = "../../def".
Proof. reflexivity. Qed.
Example Clean_doc_5 : filepath.Clean "abc/.." = "." /\ filepath.Clean "/" = "/" /\ filepath.Clean "" = ".".
Proof. repeat split; reflexivity. Qed.
Example Join_doc_1 : filepath.Join ["a"; "b"; "c"] = "a/b/c" /\ filepath.Join ["a"; ""] = "a".
Proof. split; reflexivity. Qed.
Example Join_doc_2 : filepath.Join ["a/b"; "../../../xyz"] = "../xyz" /\ filepath.Join [""; ""] = "".
Proof. split; reflexivity. Qed.

(** ** Decoding *)

Section DecodeFacts.
Import json.


Lemma traverse_total {A B : Type} (f : A → B + error) (g : A → B) (l : list A) :
  (∀ x, f x = inl (g x)) → traverse f l = inl (g <$> l).
Proof.
  intros Hf. induction l as [|x l IH]; [done|].
  simpl. by rewrite Hf, IH.
Qed.

Lemma traverse_Forall2 {A B : Type} (f : A → B + error) (l : list A) (ys : list B) :
  traverse f l = inl ys → Forall2 (λ x y, f x = inl y) l ys.
Proof.
  revert ys. induction l as [|x l IH]; intros ys H; simpl in H.
  - injection H as <-. constructor.
  - destruct (f x) as [y|e] eqn:Hx; [|done].
    destruct (traverse f l) as [ys'|e]; [|done].
    injection H as <-. constructor; auto.
Qed.

Lemma traverse_fails {A B : Type} (f : A → B + error) (l : list A) (x : A) (e : error) :
  x ∈ l → f x = inr e → ∃ e', traverse f l = inr e'.
Proof.
  intros Hx Hf. induction l as [|a l IH]; [by apply elem_of_nil in Hx|].
  simpl. destruct (f a) as [b|e1] eqn:Ha; [|by eauto].
  apply elem_of_cons in Hx as [->|Hx]; [congruence|].
  destruct (IH Hx) as [e' ->]. eauto.
Qed.

(** An object decoded into a map of raw messages or of [interface{}] values
    holds the members of the object. *)
Lemma into_map_any (type : string) (members : list (string * value)) :
  into_map into_any type (Object members) = inl (store members).
Proof.
  unfold into_map.
  rewrite (traverse_total _ id); [by rewrite list_fmap_id|].
  by intros [k v].
Qed.

(** A string found in a decoded [map[string]string] is, unless empty, a
    string member of the object. *)
Lemma store_into_string (members : list (string * value))
    (kvs : list (string * string)) (m : gmap string value) (m' : gmap string string) :
  traverse (λ kv, match into_string kv.2 with
                  | inl b => inl (kv.1, b)
                  | inr e => inr e
                  end) members = inl kvs →
  (∀ k s, m' !! k = Some s → s ≠ "" → m !! k = Some (Str s)) →
  ∀ k s, foldl (λ m kv, <[kv.1 := kv.2]> m) m' kvs !! k = Some s → s ≠ "" →
         foldl (λ m kv, <[kv.1 := kv.2]> m) m members !! k = Some (Str s).
Proof.
  revert kvs m m'. induction members as [|[k0 v0] members IH];
    intros kvs m m' Ht Hm k s; simpl in Ht.
  - injection Ht as <-. simpl. auto.
  - destruct (into_string v0) as [b|e] eqn:Hv; [|done].
    destruct (traverse _ members) as [kvs'|e] eqn:Ht'; [|done].
    injection Ht as <-. simpl.
    apply (IH kvs' _ _ eq_refl).
    intros k1 s1. destruct (decide (k0 = k1)) as [->|Hne].
    + rewrite !lookup_insert_eq. intros [= ->] Hs.
      destruct v0; simpl in Hv; try done; by simplify_eq.
    + rewrite !lookup_insert_ne by done. apply Hm.
Qed.

Lemma into_map_string_member (members : list (string * value))
    (link : gmap string string) (k s : string) :
  into_map into_string "map[string]string" (Object members) = inl link →
  link !!! k = s → s ≠ "" → store members !! k = Some (Str s).
Proof.
  unfold into_map. intros H Hk Hs.
  destruct (traverse _ members) as [kvs|e] eqn:Ht; [|done].
  injection H as <-.
  eapply (store_into_string _ _ ∅ ∅ Ht); [by intros ?? ?%lookup_empty_Some| |done].
  rewrite lookup_total_alt in Hk. unfold store in Hk.
  destruct (foldl _ ∅ kvs !! k) as [s'|]; simpl in Hk; [by subst|].
  by subst.
Qed.

End DecodeFacts.

(** ** The listing loops *)

Section LoopFacts.
Import json.



Lemma bitbucket_range_spec (target : gmap string string)
    (data : list (gmap string value)) (i : nat) (repoList : list repository) :
  i + length data ≤ length repoList →
  bitbucket_range target data i repoList =
  match traverse (bitbucket_item target) data with
  | inl rs => (take i repoList ++ rs ++ drop (i + length data) repoList, None)
  | inr e => ([], Some e)
  end.
Proof.
  revert i repoList. induction data as [|repo data IH]; intros i repoList Hlen; simpl.
  - by rewrite Nat.add_0_r, take_drop.
  - simpl in Hlen. destruct (bitbucket_item target repo) as [r|e] eqn:Hr; [|done].
    rewrite IH by (rewrite length_insert; lia).
    destruct (traverse _ data) as [rs|e]; [|done].
    rewrite (take_S_r _ _ r) by (apply list_lookup_insert_eq; lia).
    rewrite take_insert_ge by lia.
    rewrite drop_insert_lt by lia.
    rewrite <- app_assoc. simpl.
    by replace (i + S (length data)) with (S (i + length data)) by lia.
Qed.

Lemma bitbucket_range_make (target : gmap string string)
    (data : list (gmap string value)) :
  bitbucket_range target data 0 (make_repositories (length data)) =
  match traverse (bitbucket_item target) data with
  | inl rs => (rs, None)
  | inr e => ([], Some e)
  end.
Proof.
  rewrite bitbucket_range_spec by (unfold make_repositories; rewrite length_replicate; lia).
  destruct (traverse _ data) as [rs|e]; [|done].
  rewrite take_0, drop_ge, app_nil_r;
    [done | unfold make_repositories; rewrite length_replicate; lia].
Qed.

Lemma https_scan_absent (cloneLinks : list (gmap string string)) (acc : string) :
  (∀ link, link ∈ cloneLinks → link !!! "name" ≠ "https") →
  foldl (λ cloneURL (link : gmap string string),
           if decide (link !!! "name" = "https") then link !!! "href"
           else cloneURL) acc cloneLinks = acc.
Proof.
  revert acc. induction cloneLinks as [|link l IH]; intros acc H; [done|].
  simpl. rewrite decide_False by (apply H; left).
  apply IH. intros l' Hl'. apply H. by right.
Qed.

Lemma https_link_absent (cloneLinks : list (gmap string string)) :
  (∀ link, link ∈ cloneLinks → link !!! "name" ≠ "https") →
  https_link cloneLinks = "".
Proof. apply https_scan_absent. Qed.

End LoopFacts.

(** ** The github listing *)

Section GitHub.
Import json.
Context {K : machine}.
Implicit Types (w : world K) (tr : list event) (target : gmap string string).



End GitHub.

Section GitHubClaims.
Import json.






(** The github scenario of the specification, in full. *)
Example github_scenario :
  result (Sim.exec (K := Sim.sim (Sim.serve Scenario.github_payload))
            (getGitHubRepoList Scenario.github_target "/backups") Sim.empty_files)
  = ([ {| name := "infra";
          cloneURL := "https://acme-co:T@github.com/acme-co/infra.git" |} ], None).
Proof. vm_compute. reflexivity. Qed.

End GitHubClaims.

(** ** The credential embeddings *)

Section EmbeddingClaims.
Import json GoStrings.

Lemma Sprintf_github_auth (target : gmap string string) :
  Sprintf "https://%s:%s@" [target !!! "entity"; target !!! "token"] =
  "https://" +:+ target !!! "entity" +:+ ":" +:+ target !!! "token" +:+ "@".
Proof. reflexivity. Qed.

Lemma Sprintf_bitbucket_auth (target : gmap string string) :
  Sprintf "https://%s:%s@" [target !!! "entity"; target !!! "password"] =
  "https://" +:+ target !!! "entity" +:+ ":" +:+ target !!! "password" +:+ "@".
Proof. reflexivity. Qed.

Lemma Sprintf_bitbucket_unauth (target : gmap string string) :
  Sprintf "https://%s@" [target !!! "entity"] =
  "https://" +:+ target !!! "entity" +:+ "@".
Proof. reflexivity. Qed.

(** C5, as stated, fails: a URL that does not begin with the expected prefix
    but holds it further on is not returned unchanged; the credentials are
    inserted at that place.  Shown for both embeddings and for the github
    listing as a whole. *)
Lemma embedding_beyond_prefix_counterexample :
  HasPrefix "git+https://github.com/acme-co/infra.git" "https://" = false
  ∧ github_cloneURL Scenario.github_target "git+https://github.com/acme-co/infra.git"
    = "git+https://acme-co:T@github.com/acme-co/infra.git"
  ∧ result (Sim.exec (K := Sim.sim (Sim.serve (Array (Object <$> Scenario.github_scheme_objects))))
              (getGitHubRepoList Scenario.github_target "/backups") Sim.empty_files)
    = ([ {| name := "infra";
            cloneURL := "git+https://acme-co:T@github.com/acme-co/infra.git" |} ], None)
  ∧ HasPrefix "git+https://bbuser@bitbucket.org/bbuser/repoX.git" "https://bbuser@" = false
  ∧ bitbucket_cloneURL Scenario.bitbucket_target
      "git+https://bbuser@bitbucket.org/bbuser/repoX.git"
    = "git+https://bbuser:P@bitbucket.org/bbuser/repoX.git".
Proof. repeat split; vm_compute; reflexivity. Qed.

(** C5, amended.  For both embeddings the substitution is a no-op, returning
    the URL unchanged, when the expected unauthenticated string ([https://]
    for github, [https://<entity>@] for bitbucket) does not occur anywhere in
    the URL; when it occurs, the credentials replace its leftmost occurrence,
    which is the beginning of the URL when the URL begins with it. *)
Theorem embedding_replaces_leftmost (target : gmap string string) (url : string) :
  let unauth_gh := "https://" in
  let auth_gh := "https://" +:+ target !!! "entity" +:+ ":" +:+ target !!! "token" +:+ "@" in
  let unauth_bb := "https://" +:+ target !!! "entity" +:+ "@" in
  let auth_bb := "https://" +:+ target !!! "entity" +:+ ":" +:+ target !!! "password" +:+ "@" in
  (Contains url unauth_gh = false → github_cloneURL target url = url) ∧
  (Contains url unauth_bb = false → bitbucket_cloneURL target url = url) ∧
  (∀ rest, url = unauth_gh +:+ rest → github_cloneURL target url = auth_gh +:+ rest) ∧
  (∀ rest, url = unauth_bb +:+ rest → bitbucket_cloneURL target url = auth_bb +:+ rest) ∧
  (∀ pre post, url = pre +:+ unauth_gh +:+ post →
     (∀ k, k < String.length pre → HasPrefix (drop_bytes k url) unauth_gh = false) →
     github_cloneURL target url = pre +:+ auth_gh +:+ post) ∧
  (∀ pre post, url = pre +:+ unauth_bb +:+ post →
     (∀ k, k < String.length pre → HasPrefix (drop_bytes k url) unauth_bb = false) →
     bitbucket_cloneURL target url = pre +:+ auth_bb +:+ post).
Proof.
  intros unauth_gh auth_gh unauth_bb auth_bb.
  unfold github_cloneURL, bitbucket_cloneURL.
  rewrite Sprintf_github_auth, Sprintf_bitbucket_auth, Sprintf_bitbucket_unauth.
  fold unauth_gh auth_gh unauth_bb auth_bb.
  repeat split.
  - apply Replace_absent.
  - apply Replace_absent.
  - intros rest ->. apply Replace_at_prefix.
  - intros rest ->. apply Replace_at_prefix.
  - intros pre post -> H. by apply Replace_leftmost.
  - intros pre post -> H. by apply Replace_leftmost.
Qed.

Lemma embedding_replaces_leftmost_witness :
  github_cloneURL Scenario.github_target "git://github.com/acme-co/infra.git"
  = "git://github.com/acme-co/infra.git" ∧
  github_cloneURL Scenario.github_target "https://github.com/acme-co/infra.git"
  = "https://acme-co:T@github.com/acme-co/infra.git" ∧
  bitbucket_cloneURL Scenario.bitbucket_target
    "https://bbuser@bitbucket.org/bbuser/repoX.git"
  = "https://bbuser:P@bitbucket.org/bbuser/repoX.git" ∧
  github_cloneURL Scenario.github_target "git+https://github.com/acme-co/infra.git"
  = "git+https://acme-co:T@github.com/acme-co/infra.git".
Proof.
  split; [|split; [|split]].
  - exact (proj1 (embedding_replaces_leftmost Scenario.github_target
                    "git://github.com/acme-co/infra.git") eq_refl).
  - exact (proj1 (proj2 (proj2 (embedding_replaces_leftmost Scenario.github_target
                    "https://github.com/acme-co/infra.git")))
             "github.com/acme-co/infra.git" eq_refl).
  - exact (proj1 (proj2 (proj2 (proj2 (embedding_replaces_leftmost
                    Scenario.bitbucket_target
                    "https://bbuser@bitbucket.org/bbuser/repoX.git"))))
             "bitbucket.org/bbuser/repoX.git" eq_refl).
  - refine (proj1 (proj2 (proj2 (proj2 (proj2 (embedding_replaces_leftmost
                    Scenario.github_target
                    "git+https://github.com/acme-co/infra.git")))))
              "git+" "github.com/acme-co/infra.git" eq_refl _).
    intros k Hk. destruct k as [|[|[|[|k]]]]; try reflexivity.
    simpl in Hk. lia.
Defined.

End EmbeddingClaims.

(** ** The bitbucket listing *)

Section BitBucket.
Import json.
Context {K : machine}.
Implicit Types (w : world K) (tr : list event) (target : gmap string string).

Lemma traverse_elem_of_l {A B : Type} (f : A → B + error) (l : list A)
    (ys : list B) (x : A) :
  traverse f l = inl ys → x ∈ l → ∃ y, y ∈ ys ∧ f x = inl y.
Proof.
  intros Ht Hx. apply traverse_Forall2 in Ht.
  apply list_elem_of_lookup in Hx as [i Hi].
  destruct (Forall2_lookup_l _ _ _ _ _ Ht Hi) as (y & Hy & Hf).
  exists y. split; [by eapply list_elem_of_lookup_2|done].
Qed.

Lemma traverse_elem_of_r {A B : Type} (f : A → B + error) (l : list A)
    (ys : list B) (y : B) :
  traverse f l = inl ys → y ∈ ys → ∃ x, x ∈ l ∧ f x = inl y.
Proof.
  intros Ht Hy. apply traverse_Forall2 in Ht.
  apply list_elem_of_lookup in Hy as [i Hi].
  destruct (Forall2_lookup_r _ _ _ _ _ Ht Hi) as (x & Hx & Hf).
  exists x. split; [by eapply list_elem_of_lookup_2|done].
Qed.

Lemma Unmarshal_Encoded {B : Type} (into : value → B + error) (v : value) :
  Unmarshal into (Encoded v) = into v.
Proof. reflexivity. Qed.

Lemma result_pair {A : Type} (a : A) (s : world K * list event) :
  result (a, s) = a.
Proof. reflexivity. Qed.

Lemma getBitBucketRepoList_body w tr target backupDirectory contents :
  http K w (bitbucket_requestURL target) = Body contents →
  getBitBucketRepoList target backupDirectory (w, tr) =
  (bitbucket_decode target contents,
   (w, tr ++ [HttpGet (bitbucket_requestURL target)])).
Proof.
  intros Hbody. unfold getBitBucketRepoList, mbind, M_bind, http_Get. simpl.
  by rewrite Hbody.
Qed.

(** Every return with an error returns the nil list. *)
Lemma bitbucket_range_error target data i repoList l e :
  bitbucket_range target data i repoList = (l, Some e) → l = [].
Proof.
  revert i repoList. induction data as [|repo data IH]; intros i repoList; simpl.
  - by intros [= _ ?].
  - destruct (bitbucket_item target repo); [apply IH|]. by intros [= <- _].
Qed.

Lemma bitbucket_decode_error target contents l e :
  bitbucket_decode target contents = (l, Some e) → l = [].
Proof.
  unfold bitbucket_decode.
  destruct (Unmarshal_map_RawMessage contents) as [metadata|]; [|by intros [= <- _]].
  destruct (Unmarshal_slice_map_RawMessage _) as [data|]; [|by intros [= <- _]].
  apply bitbucket_range_error.
Qed.

Lemma getBitBucketRepoList_error w tr target backupDirectory l e :
  result (getBitBucketRepoList target backupDirectory (w, tr)) = (l, Some e) → l = [].
Proof.
  unfold getBitBucketRepoList, mbind, M_bind, http_Get, result. simpl.
  destruct (http K w _); simpl; try by intros [= <- _].
  apply bitbucket_decode_error.
Qed.

Lemma item_failure_inr target repo :
  item_failure repo → ∃ e, bitbucket_item target repo = inr e.
Proof.
  unfold bitbucket_item.
  intros [e He|e He|links e Hl He|links cloneLinks Hl Hc Hno].
  - rewrite He. eauto.
  - destruct (Unmarshal_string _); [|by eauto]. rewrite He. eauto.
  - destruct (Unmarshal_string _); [|by eauto]. rewrite Hl, He. eauto.
  - destruct (Unmarshal_string _); [|by eauto]. rewrite Hl, Hc.
    rewrite (https_link_absent _ Hno). rewrite decide_True by done. eauto.
Qed.

Lemma bitbucket_decode_failure target contents :
  listing_failure contents → ∃ e, bitbucket_decode target contents = ([], Some e).
Proof.
  unfold bitbucket_decode.
  intros [e He|metadata e Hm He|metadata data repo Hm Hd Hrepo Hfail].
  - rewrite He. eauto.
  - rewrite Hm, He. eauto.
  - rewrite Hm, Hd, bitbucket_range_make.
    destruct (item_failure_inr target repo Hfail) as [e He].
    destruct (traverse_fails _ _ _ _ Hrepo He) as [e' ->]. eauto.
Qed.

End BitBucket.

Section BitBucketClaims.
Import json.

(** C8. When the decoding of a bitbucket listing fails at any place (the
    envelope, its [values], or the name, the links, the clone links or the
    missing https link of any item, whatever the items before it), the call
    returns an error and no descriptor: what earlier items produced is not
    returned. *)
Theorem bitbucket_failure_discards_all (K : machine) (w : world K)
    (tr : list event) (target : gmap string string) (backupDirectory : string)
    (contents : RawMessage) :
  http K w (bitbucket_requestURL target) = Body contents →
  listing_failure contents →
  ∃ e, result (getBitBucketRepoList target backupDirectory (w, tr)) = ([], Some e).
Proof.
  intros Hbody Hfail. rewrite (getBitBucketRepoList_body _ _ _ _ _ Hbody).
  exact (bitbucket_decode_failure target contents Hfail).
Qed.

Lemma bitbucket_failure_discards_all_witness :
  ∃ e,
    result (Sim.exec (K := Sim.sim (Sim.serve (Object (Scenario.bitbucket_envelope
                          [Scenario.bitbucket_repoX; Scenario.bitbucket_repoY]))))
              (getBitBucketRepoList Scenario.bitbucket_target "/backups")
              Sim.empty_files)
    = ([], Some e).
Proof.
  apply (bitbucket_failure_discards_all
           (Sim.sim (Sim.serve (Object (Scenario.bitbucket_envelope
                      [Scenario.bitbucket_repoX; Scenario.bitbucket_repoY]))))
           Sim.empty_files [] Scenario.bitbucket_target "/backups" _ eq_refl).
  eapply fail_item; [reflexivity | reflexivity | |].
  - apply list_elem_of_further, list_elem_of_here.
  - eapply fail_https; [reflexivity | reflexivity |].
    intros link ->%list_elem_of_singleton. vm_compute. discriminate.
Defined.

(** C3. When the body of a bitbucket listing is an object whose [values]
    array holds an item whose [links.clone] array has no entry named
    [https], the call returns an error and no descriptor, whatever the
    other items are. *)
Theorem bitbucket_missing_https_fails (K : machine) (w : world K)
    (tr : list event) (target : gmap string string) (backupDirectory : string)
    (envelope : list (string * value)) (items : list value)
    (item links : list (string * value)) (entries : list value) :
  http K w (bitbucket_requestURL target) = Body (Encoded (Object envelope)) →
  member envelope "values" = Some (Array items) →
  Object item ∈ items →
  member item "links" = Some (Object links) →
  member links "clone" = Some (Array entries) →
  (∀ entry, Object entry ∈ entries → member entry "name" ≠ Some (Str "https")) →
  ∃ e, result (getBitBucketRepoList target backupDirectory (w, tr)) = ([], Some e).
Proof.
  intros Hbody Hvalues Hitem Hlinks Hclone Hno.
  destruct (result (getBitBucketRepoList target backupDirectory (w, tr)))
    as [l [e|]] eqn:Hres.
  { apply getBitBucketRepoList_error in Hres as Hl. subst. eauto. }
  exfalso. rewrite (getBitBucketRepoList_body _ _ _ _ _ Hbody) in Hres.
  rewrite result_pair in Hres.
  unfold bitbucket_decode, Unmarshal_map_RawMessage in Hres.
  rewrite Unmarshal_Encoded, into_map_any in Hres.
  unfold index in Hres. unfold member in Hvalues. rewrite Hvalues in Hres.
  unfold Unmarshal_slice_map_RawMessage in Hres.
  rewrite Unmarshal_Encoded in Hres. unfold into_slice in Hres.
  destruct (traverse _ items) as [data|] eqn:Hdata; [|done].
  rewrite bitbucket_range_make in Hres.
  destruct (traverse (bitbucket_item target) data) as [rs|] eqn:Hrs; [|done].
  destruct (traverse_elem_of_l _ _ _ _ Hdata Hitem) as (repo & Hrepo & Hdec).
  rewrite into_map_any in Hdec. injection Hdec as <-.
  destruct (traverse_elem_of_l _ _ _ _ Hrs Hrepo) as (r & _ & Hr).
  unfold bitbucket_item in Hr.
  destruct (Unmarshal_string _); [|done].
  unfold index in Hr at 1. unfold member in Hlinks. rewrite Hlinks in Hr.
  unfold Unmarshal_map_RawMessage in Hr.
  rewrite Unmarshal_Encoded, into_map_any in Hr.
  unfold index in Hr. unfold member in Hclone. rewrite Hclone in Hr.
  unfold Unmarshal_slice_map_string in Hr.
  rewrite Unmarshal_Encoded in Hr. unfold into_slice in Hr.
  destruct (traverse _ entries) as [cloneLinks|] eqn:Hentries; [|done].
  assert (https_link cloneLinks = "") as Hnone.
  { apply https_link_absent. intros link Hlink Hname.
    destruct (traverse_elem_of_r _ _ _ _ Hentries Hlink) as (entry & Hentry & Hdec).
    destruct entry as [| | | | |entry]; try done.
    - injection Hdec as <-. by rewrite lookup_total_empty in Hname.
    - apply (Hno entry Hentry).
      by apply (into_map_string_member _ _ _ _ Hdec Hname). }
  rewrite Hnone in Hr. by rewrite decide_True in Hr.
Qed.

Lemma bitbucket_missing_https_fails_witness :
  ∃ e,
    result (Sim.exec (K := Sim.sim (Sim.serve (Object (Scenario.bitbucket_envelope
                          [Scenario.bitbucket_repoX; Scenario.bitbucket_repoY]))))
              (getBitBucketRepoList Scenario.bitbucket_target "/backups")
              Sim.empty_files)
    = ([], Some e).
Proof.
  eapply (bitbucket_missing_https_fails
            (Sim.sim (Sim.serve (Object (Scenario.bitbucket_envelope
                       [Scenario.bitbucket_repoX; Scenario.bitbucket_repoY]))))
            Sim.empty_files [] Scenario.bitbucket_target "/backups" _ _ _ _ _
            eq_refl eq_refl).
  - apply list_elem_of_further, list_elem_of_here.
  - reflexivity.
  - reflexivity.
  - intros entry [= ->]%list_elem_of_singleton. vm_compute. discriminate.
Defined.

(** C9. For the target [bb1] (entity [bbuser], password [P]) and a listing
    whose [values] array holds the single item [repoX] with the https clone
    link [https://bbuser@bitbucket.org/bbuser/repoX.git], the listing returns
    exactly one descriptor, named [repoX], with the clone URL
    [https://bbuser:P@bitbucket.org/bbuser/repoX.git]. *)
Theorem bitbucket_scenario (K : machine) (w : world K) (tr : list event)
    (backupDirectory : string) (envelope : list (string * value)) :
  http K w (bitbucket_requestURL Scenario.bitbucket_target)
    = Body (Encoded (Object envelope)) →
  member envelope "values" = Some (Array [Scenario.bitbucket_repoX]) →
  result (getBitBucketRepoList Scenario.bitbucket_target backupDirectory (w, tr))
  = ([ {| name := "repoX";
          cloneURL := "https://bbuser:P@bitbucket.org/bbuser/repoX.git" |} ], None).
Proof.
  intros Hbody Hvalues. rewrite (getBitBucketRepoList_body _ _ _ _ _ Hbody).
  rewrite result_pair. unfold bitbucket_decode, Unmarshal_map_RawMessage.
  rewrite Unmarshal_Encoded, into_map_any.
  unfold index. unfold member in Hvalues. rewrite Hvalues.
  vm_compute. reflexivity.
Qed.

Lemma bitbucket_scenario_witness :
  result (Sim.exec (K := Sim.sim (Sim.serve (Object (Scenario.bitbucket_envelope
                        [Scenario.bitbucket_repoX]))))
            (getBitBucketRepoList Scenario.bitbucket_target "/backups")
            Sim.empty_files)
  = ([ {| name := "repoX";
          cloneURL := "https://bbuser:P@bitbucket.org/bbuser/repoX.git" |} ], None).
Proof.
  exact (bitbucket_scenario
           (Sim.sim (Sim.serve (Object (Scenario.bitbucket_envelope
                      [Scenario.bitbucket_repoX]))))
           Sim.empty_files [] "/backups" _ eq_refl eq_refl).
Defined.

End BitBucketClaims.

(** ** The sync of one repository *)

Section Sync.
Import GoStrings.
Context {K : machine}.
Implicit Types (w : world K) (tr : list event).

Lemma commands_app (tr1 tr2 : list event) :
  commands (tr1 ++ tr2) = commands tr1 ++ commands tr2.
Proof. apply omap_app. Qed.

Lemma commands_outcome (failure success : string) (out : string * option error) :
  commands (outcome failure success out) = [].
Proof.
  unfold outcome. destruct out as [o [e|]]; simpl; [done|].
  by destruct (decide _).
Qed.

Lemma commands_clone_trace w repoName cloneURL cloneDirectory :
  commands (clone_trace K w repoName cloneURL cloneDirectory) =
  [clone_command cloneURL cloneDirectory].
Proof.
  unfold clone_trace. by rewrite !commands_app, commands_outcome.
Qed.

Lemma commands_fetch_trace w repoName cloneURL cloneDirectory :
  commands (fetch_trace K w repoName cloneURL cloneDirectory) =
  [fetch_command cloneURL cloneDirectory].
Proof.
  unfold fetch_trace. by rewrite !commands_app, commands_outcome.
Qed.

Lemma bind_emit {A : Type} (e : event) (k : M K A) w tr :
  (emit e ;; k) (w, tr) = k (w, tr ++ [e]).
Proof. reflexivity. Qed.

Lemma bind_Stat {A : Type} (name : string) (k : option Errno → M K A) w tr :
  (os_Stat name ≫= k) (w, tr) = k (stat K w name) (w, tr ++ [Stat name]).
Proof. reflexivity. Qed.

Lemma bind_CombinedOutput {A : Type} (cmd : Cmd)
    (k : string * option error → M K A) w tr :
  (cmd_CombinedOutput cmd ≫= k) (w, tr) =
  k (run K w cmd).1 ((run K w cmd).2, tr ++ [CombinedOutput cmd]).
Proof.
  unfold mbind, M_bind, cmd_CombinedOutput. cbn [fst snd].
  by destruct (run K w cmd).
Qed.

Lemma bind_Println {A : Type} (operands : list string) (k : M K A) w tr :
  (fmt_Println operands ;; k) (w, tr) = k (w, tr ++ [Println (Join operands " ")]).
Proof. reflexivity. Qed.

Lemma bind_Printf {A : Type} (format : string) (args : list string) (k : M K A) w tr :
  (log_Printf format args ;; k) (w, tr) =
  k (w, tr ++ [LogPrintf (Sprintf format args)]).
Proof. reflexivity. Qed.

Lemma emit_run (e : event) w tr : emit e (w, tr) = (tt, (w, tr ++ [e])).
Proof. reflexivity. Qed.

Lemma Sprintf_tag (repoName : string) :
  Sprintf "#> %s" [repoName] = "#> " +:+ repoName.
Proof.
  change (Sprintf "#> %s" [repoName]) with ("#> " +:+ repoName +:+ "").
  by rewrite string_app_empty_r.
Qed.

Lemma Sprintf_pulling (cloneDirectory : string) :
  Sprintf "Pulling git repo in %s" [cloneDirectory] =
  "Pulling git repo in " +:+ cloneDirectory.
Proof.
  change (Sprintf "Pulling git repo in %s" [cloneDirectory])
    with ("Pulling git repo in " +:+ cloneDirectory +:+ "").
  by rewrite string_app_empty_r.
Qed.

Lemma Sprintf_cloning (cloneURL cloneDirectory : string) :
  Sprintf "Cloning %s to %s" [cloneURL; cloneDirectory] =
  "Cloning " +:+ cloneURL +:+ " to " +:+ cloneDirectory.
Proof.
  change (Sprintf "Cloning %s to %s" [cloneURL; cloneDirectory])
    with ("Cloning " +:+ cloneURL +:+ " to " +:+ cloneDirectory +:+ "").
  by rewrite string_app_empty_r.
Qed.

Lemma Sprintf_backing_up (repoName : string) :
  Sprintf ("Backing up repo " +:+ dquote +:+ "%s" +:+ dquote) [repoName] =
  "Backing up repo " +:+ dquote +:+ repoName +:+ dquote.
Proof. reflexivity. Qed.

(** What is printed once the command has returned. *)
Lemma report_run (failure success : string) (out : string * option error) w tr :
  (let '(cmdOut, err) := out in
   match err with
   | Some e => fmt_Println [failure; e]
   | None =>
       fmt_Println [success] ;;
       if decide (0 < String.length cmdOut) then fmt_Printf cmdOut else skip
   end) (w, tr)
  = (tt, (w, tr ++ outcome failure success out)).
Proof.
  destruct out as [cmdOut [e|]]; unfold outcome; cbn [fst snd].
  - reflexivity.
  - rewrite bind_Println.
    destruct (decide (0 < String.length cmdOut)).
    + unfold fmt_Printf. rewrite emit_run. by rewrite <- app_assoc.
    + reflexivity.
Qed.

(** The whole behaviour of a sync: it clones when [os.Stat] answers "does
    not exist" and fetches on every other answer. *)
Lemma backupRepository_run w tr targetName repoName cloneURL backupDirectory :
  let cloneDirectory := filepath.Join [backupDirectory; targetName; repoName] in
  backupRepository targetName repoName cloneURL backupDirectory (w, tr) =
  if IsNotExist (stat K w cloneDirectory) then
    (tt, ((run K w (clone_command cloneURL cloneDirectory)).2,
          tr ++ clone_trace K w repoName cloneURL cloneDirectory))
  else
    (tt, ((run K w (fetch_command cloneURL cloneDirectory)).2,
          tr ++ fetch_trace K w repoName cloneURL cloneDirectory)).
Proof.
  intros cloneDirectory.
  unfold backupRepository, clone_trace, fetch_trace, prologue.
  fold cloneDirectory.
  rewrite bind_Println, bind_Printf, bind_Stat.
  rewrite Sprintf_backing_up. cbn [Join]. rewrite Sprintf_tag.
  destruct (IsNotExist (stat K w cloneDirectory)).
  - rewrite bind_Printf, bind_CombinedOutput, Sprintf_cloning.
    rewrite report_run. by rewrite <- !app_assoc.
  - rewrite bind_Printf, bind_CombinedOutput, Sprintf_pulling.
    rewrite report_run. by rewrite <- !app_assoc.
Qed.

End Sync.

Section SyncClaims.
Import GoStrings.



(** C10. The test of a sync is whether [os.Stat] reported "does not exist":
    when [os.Stat] fails with any other error, the sync behaves as for an
    existing path.  Its trace is that of a fetch, with the one git command
    the pruning fetch run in the mirror path; it does not clone and no event
    reports the failure of [os.Stat]. *)
Theorem sync_stat_failure_fetches (K : machine) (w : world K) (tr : list event)
    (targetName repoName cloneURL backupDirectory : string) (e : Errno) :
  let cloneDirectory := filepath.Join [backupDirectory; targetName; repoName] in
  let r := backupRepository targetName repoName cloneURL backupDirectory (w, tr) in
  stat K w cloneDirectory = Some e →
  e ≠ ENOENT →
  trace r = tr ++ fetch_trace K w repoName cloneURL cloneDirectory ∧
  commands (trace r) = commands tr ++ [fetch_command cloneURL cloneDirectory] ∧
  final r = (run K w (fetch_command cloneURL cloneDirectory)).2.
Proof.
  intros cloneDirectory r Hstat He. subst r.
  rewrite backupRepository_run. fold cloneDirectory. rewrite Hstat.
  assert (IsNotExist (Some e) = false) as -> by by destruct e.
  unfold trace, final. cbn [fst snd].
  by rewrite commands_app, commands_fetch_trace.
Qed.

Lemma sync_stat_failure_fetches_witness :
  let K := Sim.sim (Sim.serve json.Null) in
  let w := {| Sim.present := ∅; Sim.denied := {["/backups/acme/infra"]} |} in
  let r := Sim.exec (K := K) (backupRepository "acme" "infra" "https://u" "/backups") w in
  stat K w "/backups/acme/infra" = Some EACCES ∧
  commands (trace r) = [fetch_command "https://u" "/backups/acme/infra"].
Proof.
  intros K w r. split; [vm_compute; reflexivity|].
  exact (proj1 (proj2 (sync_stat_failure_fetches K w [] "acme" "infra" "https://u"
                         "/backups" EACCES ltac:(vm_compute; reflexivity)
                         ltac:(discriminate)))).
Defined.

(** C4, as stated, fails: a name made of traversal sequences is neither
    rejected nor neutralised.  With the backup root [/backups], the target
    [acme] and the name [../../etc] the sync stats [/etc], which is not
    under the backup root, and clones into it. *)
Lemma sync_name_traversal_counterexample :
  Contains "../../etc" ".." = true
  ∧ filepath.Join ["/backups"; "acme"; "../../etc"] = "/etc"
  ∧ HasPrefix "/etc" "/backups" = false
  ∧ trace (Sim.exec (K := Sim.sim (Sim.serve json.Null))
             (backupRepository "acme" "../../etc" "https://u" "/backups")
             Sim.empty_files)
    = [ Println "#> ../../etc";
        LogPrintf ("Backing up repo " +:+ dquote +:+ "../../etc" +:+ dquote);
        Stat "/etc";
        LogPrintf "Cloning https://u to /etc";
        CombinedOutput (clone_command "https://u" "/etc");
        Println "Cloned repository." ].
Proof. repeat split; vm_compute; reflexivity. Qed.

(** C4, amended.  A sync uses the repository name as it receives it, without
    validation: whatever the name, it stats the path
    [filepath.Join(backupDirectory, targetName, repoName)], which for a
    non-empty backup root is the lexical cleaning of the three strings joined
    by [/], and runs its one git command, the clone or the fetch, on that
    path. *)
Theorem sync_joins_name_unchecked (K : machine) (w : world K) (tr : list event)
    (targetName repoName cloneURL backupDirectory : string) :
  let cloneDirectory := filepath.Join [backupDirectory; targetName; repoName] in
  let r := backupRepository targetName repoName cloneURL backupDirectory (w, tr) in
  (backupDirectory ≠ "" →
   cloneDirectory =
   filepath.Clean (backupDirectory +:+ "/" +:+ targetName +:+ "/" +:+ repoName)) ∧
  (∃ announce rest,
     trace r = tr ++ prologue repoName cloneDirectory announce ++ rest) ∧
  (commands (trace r) = commands tr ++ [clone_command cloneURL cloneDirectory] ∨
   commands (trace r) = commands tr ++ [fetch_command cloneURL cloneDirectory]).
Proof.
  intros cloneDirectory r. subst r. split; [|split].
  - intros Hroot. subst cloneDirectory. unfold filepath.Join.
    by rewrite decide_False by done.
  - rewrite backupRepository_run. fold cloneDirectory.
    destruct (IsNotExist _); unfold trace; cbn [fst snd];
      unfold clone_trace, fetch_trace; eauto.
  - rewrite backupRepository_run. fold cloneDirectory.
    destruct (IsNotExist _); unfold trace; cbn [fst snd];
      rewrite commands_app, ?commands_clone_trace, ?commands_fetch_trace; auto.
Qed.

Lemma sync_joins_name_unchecked_witness :
  let K := Sim.sim (Sim.serve json.Null) in
  let r := Sim.exec (K := K)
             (backupRepository "acme" "../../etc" "https://u" "/backups")
             Sim.empty_files in
  "/backups" ≠ "" ∧
  filepath.Join ["/backups"; "acme"; "../../etc"]
    = filepath.Clean "/backups/acme/../../etc" ∧
  (commands (trace r) = [clone_command "https://u" "/etc"] ∨
   commands (trace r) = [fetch_command "https://u" "/etc"]).
Proof.
  intros K r.
  destruct (sync_joins_name_unchecked K Sim.empty_files [] "acme" "../../etc"
              "https://u" "/backups") as (Hjoin & _ & Hcmd).
  split; [discriminate|]. split; [exact (Hjoin ltac:(discriminate))|exact Hcmd].
Defined.

End SyncClaims.

(** ** The dispatch on the source of a target *)

Section TargetClaims.
Import GoStrings.

(** C7. For a target whose source is neither [github] nor [bitbucket], the
    backup logs the target and nothing else: it issues no request (neither
    listing function runs), leaves the world as it is, and returns the error
    ["<source>" is not a recognized source type], whose text holds the
    source value. *)
Theorem unrecognized_source_rejected (K : machine) (w : world K)
    (tr : list event) (target : gmap string string) (backupDirectory : string) :
  let r := BackupTarget target backupDirectory (w, tr) in
  target !!! "source" ≠ "github" →
  target !!! "source" ≠ "bitbucket" →
  trace r =
    tr ++ [LogPrintf ("Backing up target " +:+ dquote +:+ target !!! "name" +:+ dquote)] ∧
  requests (trace r) = requests tr ∧
  final r = w ∧
  ∃ msg,
    result r = Some msg ∧
    msg = dquote +:+ target !!! "source" +:+ dquote +:+ " is not a recognized source type" ∧
    Contains msg (target !!! "source") = true.
Proof.
  intros r Hgh Hbb. subst r. unfold BackupTarget.
  rewrite bind_Printf. rewrite !decide_False by done.
  unfold mbind, M_bind, mret, M_ret, trace, final, result. cbn [fst snd].
  split; [reflexivity|]. split.
  { unfold requests. by rewrite omap_app, app_nil_r. }
  split; [reflexivity|]. eexists. split; [reflexivity|]. split; [reflexivity|].
  change (Errorf (dquote +:+ "%s" +:+ dquote +:+ " is not a recognized source type")
            [target !!! "source"])
    with (dquote +:+ target !!! "source" +:+ dquote +:+ " is not a recognized source type").
  apply Contains_app.
Qed.

Lemma unrecognized_source_rejected_witness :
  let K := Sim.sim (Sim.serve json.Null) in
  let r := Sim.exec (K := K) (BackupTarget Scenario.gitlab_target "/backups")
             Sim.empty_files in
  requests (trace r) = [] ∧
  ∃ msg, result r = Some msg ∧
         msg = dquote +:+ "gitlab" +:+ dquote +:+ " is not a recognized source type" ∧
         Contains msg "gitlab" = true.
Proof.
  intros K r.
  destruct (unrecognized_source_rejected K Sim.empty_files []
              Scenario.gitlab_target "/backups"
              ltac:(vm_compute; discriminate) ltac:(vm_compute; discriminate))
    as (_ & Hreq & _ & Hmsg).
  split; [exact Hreq | exact Hmsg].
Defined.

End TargetClaims.

(** * Further properties of the program *)

(** ** The backup of a target *)

Section Backup.
Context {K : machine}.
Implicit Types (w : world K) (tr : list event) (target : gmap string string).

Lemma requests_app (tr1 tr2 : list event) :
  requests (tr1 ++ tr2) = requests tr1 ++ requests tr2.
Proof. apply omap_app. Qed.

Lemma stats_app (tr1 tr2 : list event) :
  stats (tr1 ++ tr2) = stats tr1 ++ stats tr2.
Proof. apply omap_app. Qed.

Lemma requests_outcome (failure success : string) (out : string * option error) :
  requests (outcome failure success out) = [].
Proof.
  unfold outcome. destruct out as [o [e|]]; simpl; [done|].
  by destruct (decide _).
Qed.

Lemma stats_outcome (failure success : string) (out : string * option error) :
  stats (outcome failure success out) = [].
Proof.
  unfold outcome. destruct out as [o [e|]]; simpl; [done|].
  by destruct (decide _).
Qed.

(** What one sync adds to the trace: no request, one [os.Stat] of the mirror
    path and one git command on it. *)
Lemma backupRepository_effect w tr targetName repoName cloneURL backupDirectory :
  let cloneDirectory := filepath.Join [backupDirectory; targetName; repoName] in
  ∃ w' added,
    backupRepository targetName repoName cloneURL backupDirectory (w, tr)
    = (tt, (w', tr ++ added)) ∧
    requests added = [] ∧
    stats added = [cloneDirectory] ∧
    (commands added = [clone_command cloneURL cloneDirectory] ∨
     commands added = [fetch_command cloneURL cloneDirectory]).
Proof.
  intros cloneDirectory. rewrite backupRepository_run. fold cloneDirectory.
  destruct (IsNotExist _); eexists _, _; (split; [reflexivity|]).
  - unfold clone_trace.
    rewrite !requests_app, !stats_app, requests_outcome, stats_outcome.
    rewrite commands_app, commands_app, commands_outcome. auto.
  - unfold fetch_trace.
    rewrite !requests_app, !stats_app, requests_outcome, stats_outcome.
    rewrite commands_app, commands_app, commands_outcome. auto.
Qed.

Lemma for_range_cons {A : Type} (x : A) (l : list A) (body : A → M K unit) w tr :
  for_range (x :: l) body (w, tr) = for_range l body (body x (w, tr)).2.
Proof.
  simpl. unfold mbind, M_bind. by destruct (body x (w, tr)).
Qed.

(** The syncs of a list of repositories: one after the other, in order. *)
Lemma for_range_syncs target backupDirectory (repoList : list repository) w tr :
  ∃ w' added cmds,
    for_range repoList
      (λ repo, backupRepository (target !!! "name") (name repo) (cloneURL repo)
                 backupDirectory) (w, tr)
    = (tt, (w', tr ++ added)) ∧
    requests added = [] ∧
    stats added = mirror_path target backupDirectory <$> repoList ∧
    commands added = cmds ∧
    Forall2 (sync_command target backupDirectory) repoList cmds.
Proof.
  revert w tr. induction repoList as [|repo repoList IH]; intros w tr.
  - exists w, [], []. rewrite app_nil_r. repeat split. constructor.
  - rewrite for_range_cons.
    destruct (backupRepository_effect w tr (target !!! "name") (name repo)
                (cloneURL repo) backupDirectory) as (w1 & t1 & -> & Hr1 & Hs1 & Hc1).
    cbn [snd].
    destruct (IH w1 (tr ++ t1)) as (w2 & t2 & cmds & -> & Hr2 & Hs2 & Hc2 & Hall).
    exists w2, (t1 ++ t2), (commands t1 ++ cmds).
    rewrite <- app_assoc. split; [reflexivity|].
    rewrite requests_app, stats_app, commands_app, Hr1, Hr2, Hs1, Hs2, Hc2.
    repeat split.
    destruct Hc1 as [-> | ->]; (constructor; [|done]); [by left|by right].
Qed.

(** The listing functions make one request and leave the world as it is;
    their result does not depend on the trace. *)
Lemma getGitHubRepoList_run w tr target backupDirectory :
  getGitHubRepoList target backupDirectory (w, tr) =
  (result (getGitHubRepoList target backupDirectory (w, [])),
   (w, tr ++ [HttpGet (github_requestURL target)])).
Proof.
  unfold getGitHubRepoList, mbind, M_bind, http_Get, result. cbn [fst snd].
  by destruct (http K w _).
Qed.

Lemma getBitBucketRepoList_run w tr target backupDirectory :
  getBitBucketRepoList target backupDirectory (w, tr) =
  (result (getBitBucketRepoList target backupDirectory (w, [])),
   (w, tr ++ [HttpGet (bitbucket_requestURL target)])).
Proof.
  unfold getBitBucketRepoList, mbind, M_bind, http_Get, result. cbn [fst snd].
  by destruct (http K w _).
Qed.

Lemma list_repositories_run w tr target backupDirectory :
  ∃ added,
    list_repositories target backupDirectory (w, tr) =
    (result (list_repositories target backupDirectory (w, [])), (w, tr ++ added)) ∧
    stats added = [] ∧ commands added = [] ∧
    (target !!! "source" = "github" ∨ target !!! "source" = "bitbucket" →
     requests added = [request_of target]).
Proof.
  unfold list_repositories, request_of.
  destruct (decide (target !!! "source" = "github")) as [Hgh|Hgh].
  - exists [HttpGet (github_requestURL target)].
    rewrite getGitHubRepoList_run. rewrite (getGitHubRepoList_run w []).
    rewrite result_pair. auto.
  - destruct (decide (target !!! "source" = "bitbucket")) as [Hbb|Hbb].
    + exists [HttpGet (bitbucket_requestURL target)].
      rewrite getBitBucketRepoList_run. rewrite (getBitBucketRepoList_run w []).
      rewrite result_pair. auto.
    + exists []. rewrite app_nil_r. repeat split. by intros [?|?].
Qed.

(** [BackupTarget] is the log line, the listing and, when the listing
    returned no error, the syncs. *)
Lemma BackupTarget_run w tr target backupDirectory :
  BackupTarget target backupDirectory (w, tr) =
  let s := (w, tr ++ [LogPrintf ("Backing up target " +:+ GoStrings.dquote +:+
                                   target !!! "name" +:+ GoStrings.dquote)]) in
  let listed := list_repositories target backupDirectory s in
  match listed.1.2 with
  | Some e => (Some e, listed.2)
  | None =>
      (None,
       (for_range listed.1.1
          (λ repo, backupRepository (target !!! "name") (name repo) (cloneURL repo)
                     backupDirectory) listed.2).2)
  end.
Proof.
  unfold BackupTarget. rewrite bind_Printf.
  change (GoStrings.Sprintf
            ("Backing up target " +:+ GoStrings.dquote +:+ "%s" +:+ GoStrings.dquote)
            [target !!! "name"])
    with ("Backing up target " +:+ GoStrings.dquote +:+ target !!! "name"
          +:+ GoStrings.dquote).
  fold (list_repositories (K := K) target backupDirectory).
  cbv zeta. unfold mbind at 1. unfold M_bind at 1.
  destruct (list_repositories target backupDirectory _) as [[repoList [e|]] s];
    cbn [fst snd]; [reflexivity|].
  unfold mbind, M_bind, mret, M_ret.
  by destruct (for_range repoList _ s) as [[] s'].
Qed.

(** With a listing that returned no error, [BackupTarget] runs the syncs of
    the listed repositories and returns nil. *)
Lemma BackupTarget_listed w tr target backupDirectory (repoList : list repository) :
  let r := BackupTarget target backupDirectory (w, tr) in
  result (list_repositories target backupDirectory (w, tr)) = (repoList, None) →
  result r = None ∧
  stats (trace r) = stats tr ++ (mirror_path target backupDirectory <$> repoList) ∧
  ∃ cmds,
    commands (trace r) = commands tr ++ cmds ∧
    Forall2 (sync_command target backupDirectory) repoList cmds.
Proof.
  intros r Hlist. subst r. rewrite BackupTarget_run. cbv zeta.
  destruct (list_repositories_run w tr target backupDirectory)
    as (a0 & E0 & _ & _ & _).
  rewrite E0, result_pair in Hlist.
  destruct (list_repositories_run w
              (tr ++ [LogPrintf ("Backing up target " +:+ GoStrings.dquote +:+
                                   target !!! "name" +:+ GoStrings.dquote)])
              target backupDirectory) as (a1 & -> & Hs1 & Hc1 & _).
  rewrite Hlist. cbn [fst snd].
  destruct (for_range_syncs target backupDirectory repoList w
              ((tr ++ [LogPrintf ("Backing up target " +:+ GoStrings.dquote +:+
                                    target !!! "name" +:+ GoStrings.dquote)]) ++ a1))
    as (w' & a2 & cmds & -> & _ & Hs2 & Hc2 & Hall).
  unfold result, trace. cbn [fst snd]. split; [done|].
  rewrite !stats_app, !commands_app, Hs1, Hc1, Hs2, Hc2. cbn [stats commands omap].
  rewrite !app_nil_r. eauto.
Qed.

End Backup.

Section BackupProperties.

(** X1. When the listing of a target returns repositories and no error,
    [BackupTarget] syncs every listed repository, once each and in the order
    of the listing: it stats the mirror path of each and runs for each one
    git command, the clone or the fetch of its URL on its mirror path.  It
    returns nil whatever the git commands returned. *)
Theorem backup_syncs_every_listed_repository (K : machine) (w : world K)
    (tr : list event) (target : gmap string string) (backupDirectory : string)
    (repoList : list repository) :
  let r := BackupTarget target backupDirectory (w, tr) in
  result (list_repositories target backupDirectory (w, tr)) = (repoList, None) →
  result r = None ∧
  stats (trace r) = stats tr ++ (mirror_path target backupDirectory <$> repoList) ∧
  ∃ cmds,
    commands (trace r) = commands tr ++ cmds ∧
    length cmds = length repoList ∧
    Forall2 (sync_command target backupDirectory) repoList cmds.
Proof.
  intros r Hlist. subst r.
  destruct (BackupTarget_listed w tr target backupDirectory repoList Hlist)
    as (Hres & Hstats & cmds & Hcmds & Hall).
  split; [exact Hres|]. split; [exact Hstats|].
  exists cmds. split; [exact Hcmds|]. split; [|exact Hall].
  symmetry. by eapply Forall2_length.
Qed.

Lemma backup_syncs_every_listed_repository_witness :
  let K := Sim.sim (Sim.serve Scenario.github_payload) in
  let r := Sim.exec (K := K) (BackupTarget Scenario.github_target "/backups")
             Sim.empty_files in
  result r = None ∧
  stats (trace r) = ["/backups/acme/infra"] ∧
  ∃ cmds,
    commands (trace r) = cmds ∧
    length cmds = 1 ∧
    Forall2 (sync_command Scenario.github_target "/backups")
      [ {| name := "infra";
           cloneURL := "https://acme-co:T@github.com/acme-co/infra.git" |} ] cmds.
Proof.
  intros K r.
  exact (backup_syncs_every_listed_repository K Sim.empty_files []
           Scenario.github_target "/backups" _ ltac:(vm_compute; reflexivity)).
Defined.

(** X2. When the listing of a target returns an error (a source that is not
    recognised, a failed request or body read, or a body that does not
    decode), [BackupTarget] returns that error and syncs nothing: no
    [os.Stat], no git command, and the world is as before. *)
Theorem backup_stops_on_listing_error (K : machine) (w : world K)
    (tr : list event) (target : gmap string string) (backupDirectory : string)
    (l : list repository) (e : error) :
  let r := BackupTarget target backupDirectory (w, tr) in
  result (list_repositories target backupDirectory (w, tr)) = (l, Some e) →
  result r = Some e ∧
  stats (trace r) = stats tr ∧
  commands (trace r) = commands tr ∧
  final r = w.
Proof.
  intros r Hlist. subst r. rewrite BackupTarget_run. cbv zeta.
  destruct (list_repositories_run w tr target backupDirectory)
    as (a0 & E0 & _ & _ & _).
  rewrite E0, result_pair in Hlist.
  destruct (list_repositories_run w
              (tr ++ [LogPrintf ("Backing up target " +:+ GoStrings.dquote +:+
                                   target !!! "name" +:+ GoStrings.dquote)])
              target backupDirectory) as (a1 & -> & Hs1 & Hc1 & _).
  rewrite Hlist. unfold result, trace, final. cbn [fst snd].
  rewrite !stats_app, !commands_app, Hs1, Hc1. cbn [stats commands omap].
  by rewrite !app_nil_r.
Qed.

Lemma backup_stops_on_listing_error_witness :
  let K := Sim.sim (Sim.serve (json.Object (Scenario.bitbucket_envelope
                      [Scenario.bitbucket_repoX; Scenario.bitbucket_repoY]))) in
  let r := Sim.exec (K := K) (BackupTarget Scenario.bitbucket_target "/backups")
             Sim.empty_files in
  (∃ e, result r = Some e) ∧ stats (trace r) = [] ∧ commands (trace r) = [].
Proof.
  intros K r.
  destruct (backup_stops_on_listing_error K Sim.empty_files []
              Scenario.bitbucket_target "/backups" _ _
              ltac:(vm_compute; reflexivity)) as (Hres & Hs & Hc & _).
  split; [eexists; exact Hres|]. split; [exact Hs | exact Hc].
Defined.



End BackupProperties.

(** ** The listings: which bodies they accept *)

Section ListingBodies.
Import json.
Context {K : machine}.
Implicit Types (w : world K) (tr : list event) (target : gmap string string).

Lemma getGitHubRepoList_body w tr target backupDirectory contents :
  http K w (github_requestURL target) = Body contents →
  getGitHubRepoList target backupDirectory (w, tr) =
  (github_decode target contents,
   (w, tr ++ [HttpGet (github_requestURL target)])).
Proof.
  intros Hbody. unfold getGitHubRepoList, mbind, M_bind, http_Get. simpl.
  by rewrite Hbody.
Qed.

Lemma parse_error_text (err : error) :
  Errorf "Failed to parse JSON: %s" [err] = "Failed to parse JSON: " +:+ err.
Proof.
  change (Errorf "Failed to parse JSON: %s" [err])
    with ("Failed to parse JSON: " +:+ err +:+ "").
  by rewrite string_app_empty_r.
Qed.



End ListingBodies.

Section ListingBodyProperties.
Import json.



(** X5. When the body of the github listing is a JSON value that is
    neither [null] nor an array (the object the provider answers a refused
    request with, for one), the call returns no descriptor and the error
    [Failed to parse JSON: json: cannot unmarshal <kind> into Go value of
    type []map[string]interface {}], where <kind> names the JSON value. *)
Theorem github_listing_rejects_non_array (K : machine) (w : world K)
    (tr : list event) (target : gmap string string) (backupDirectory : string)
    (v : value) :
  http K w (github_requestURL target) = Body (Encoded v) →
  v ≠ Null →
  (∀ items, v ≠ Array items) →
  result (getGitHubRepoList target backupDirectory (w, tr)) =
  ([], Some ("Failed to parse JSON: json: cannot unmarshal " +:+ describe v +:+
             " into Go value of type []map[string]interface {}")).
Proof.
  intros Hbody Hnull Harray.
  rewrite (getGitHubRepoList_body _ _ _ _ _ Hbody), result_pair.
  unfold github_decode, Unmarshal_slice_map_interface.
  rewrite Unmarshal_Encoded. unfold into_slice.
  destruct v as [| | | |items|]; try done;
    try (by rewrite parse_error_text).
  by destruct (Harray items).
Qed.

Lemma github_listing_rejects_non_array_witness :
  result (Sim.exec (K := Sim.sim (Sim.serve (Object [("message", Str "Bad credentials")])))
            (getGitHubRepoList Scenario.github_target "/backups") Sim.empty_files)
  = ([], Some "Failed to parse JSON: json: cannot unmarshal object into Go value of type []map[string]interface {}").
Proof.
  exact (github_listing_rejects_non_array
           (Sim.sim (Sim.serve (Object [("message", Str "Bad credentials")])))
           Sim.empty_files [] Scenario.github_target "/backups" _ eq_refl
           ltac:(discriminate) ltac:(discriminate)).
Defined.

(** X6. The bitbucket listing needs the [values] member of the envelope.
    When the body is an object without that member, or the JSON [null], the
    call returns no descriptor and the error [Failed to parse JSON:
    unexpected end of JSON input]; when [values] is the JSON [null], the call
    returns no error and the empty list. *)
Theorem bitbucket_listing_values (K : machine) (w : world K) (tr : list event)
    (target : gmap string string) (backupDirectory : string) (contents : RawMessage) :
  let r := result (getBitBucketRepoList target backupDirectory (w, tr)) in
  http K w (bitbucket_requestURL target) = Body contents →
  (contents = Encoded Null → 
   r = ([], Some "Failed to parse JSON: unexpected end of JSON input")) ∧
  (∀ envelope, contents = Encoded (Object envelope) →
     member envelope "values" = None →
     r = ([], Some "Failed to parse JSON: unexpected end of JSON input")) ∧
  (∀ envelope, contents = Encoded (Object envelope) →
     member envelope "values" = Some Null →
     r = ([], None)).
Proof.
  intros r Hbody. subst r.
  rewrite (getBitBucketRepoList_body _ _ _ _ _ Hbody), result_pair.
  unfold bitbucket_decode, Unmarshal_map_RawMessage.
  split; [|split].
  - intros ->. reflexivity.
  - intros envelope -> Hvalues. rewrite Unmarshal_Encoded, into_map_any.
    unfold index. unfold member in Hvalues. by rewrite Hvalues.
  - intros envelope -> Hvalues. rewrite Unmarshal_Encoded, into_map_any.
    unfold index. unfold member in Hvalues. by rewrite Hvalues.
Qed.

Lemma bitbucket_listing_values_witness :
  result (Sim.exec (K := Sim.sim (Sim.serve (Object [("type", Str "error")])))
            (getBitBucketRepoList Scenario.bitbucket_target "/backups")
            Sim.empty_files)
  = ([], Some "Failed to parse JSON: unexpected end of JSON input").
Proof.
  exact (proj1 (proj2 (bitbucket_listing_values
           (Sim.sim (Sim.serve (Object [("type", Str "error")])))
           Sim.empty_files [] Scenario.bitbucket_target "/backups" _ eq_refl))
           _ eq_refl eq_refl).
Defined.

End ListingBodyProperties.

(** ** The bitbucket listing: links and descriptors *)

Section BitBucketLinks.
Import json GoStrings.

Lemma Replace_nonempty (s old new : string) :
  s ≠ "" → new ≠ "" → Replace s old new ≠ "".
Proof.
  intros Hs Hnew. rewrite Replace_unfold. destruct (HasPrefix s old).
  - destruct new as [|c new]; [done|]. by rewrite string_app_cons.
  - by destruct s.
Qed.

Lemma bitbucket_item_url (target : gmap string string)
    (repo : gmap string value) (r : repository) :
  bitbucket_item target repo = inl r → cloneURL r ≠ "".
Proof.
  unfold bitbucket_item.
  destruct (Unmarshal_string _); [|done].
  destruct (Unmarshal_map_RawMessage _) as [links|]; [|done].
  destruct (Unmarshal_slice_map_string _) as [cloneLinks|]; [|done].
  destruct (decide (https_link cloneLinks = "")) as [|Hurl]; [done|].
  intros [= <-]. cbn [cloneURL]. unfold bitbucket_cloneURL.
  apply Replace_nonempty; [done|]. by rewrite Sprintf_bitbucket_auth.
Qed.

Lemma bitbucket_decode_ok (target : gmap string string) (envelope : list (string * value))
    (items : list value) (l : list repository) :
  member envelope "values" = Some (Array items) →
  bitbucket_decode target (Encoded (Object envelope)) = (l, None) →
  ∃ data,
    traverse (into_map into_any "map[string]json.RawMessage") items = inl data ∧
    traverse (bitbucket_item target) data = inl l.
Proof.
  intros Hvalues. unfold bitbucket_decode, Unmarshal_map_RawMessage.
  rewrite Unmarshal_Encoded, into_map_any. unfold index.
  unfold member in Hvalues. rewrite Hvalues.
  unfold Unmarshal_slice_map_RawMessage. rewrite Unmarshal_Encoded.
  unfold into_slice.
  destruct (traverse _ items) as [data|]; [|done].
  rewrite bitbucket_range_make.
  destruct (traverse (bitbucket_item target) data) as [rs|] eqn:Hrs; [|done].
  intros [= <-]. by exists data.
Qed.

End BitBucketLinks.

Section BitBucketLinkProperties.
Import json GoStrings.

(** X7. Every descriptor that the bitbucket listing returns without error
    has a clone URL that is not empty (the github listing, which takes the
    URL of an item as optional, gives no such guarantee). *)
Theorem bitbucket_descriptors_have_url (K : machine) (w : world K)
    (tr : list event) (target : gmap string string) (backupDirectory : string)
    (l : list repository) (r : repository) :
  result (getBitBucketRepoList target backupDirectory (w, tr)) = (l, None) →
  r ∈ l →
  cloneURL r ≠ "".
Proof.
  unfold getBitBucketRepoList, mbind, M_bind, http_Get, result. cbn [fst snd].
  destruct (http K w _) as [| |contents]; cbn [fst]; try done.
  unfold mret, M_ret. cbn [fst].
  unfold bitbucket_decode.
  destruct (Unmarshal_map_RawMessage contents) as [metadata|]; [|done].
  destruct (Unmarshal_slice_map_RawMessage _) as [data|]; [|done].
  rewrite bitbucket_range_make.
  destruct (traverse (bitbucket_item target) data) as [rs|] eqn:Hrs; [|done].
  intros [= <-] Hr.
  destruct (traverse_elem_of_r _ _ _ _ Hrs Hr) as (repo & _ & Hitem).
  by eapply bitbucket_item_url.
Qed.

Lemma bitbucket_descriptors_have_url_witness :
  let K := Sim.sim (Sim.serve (Object (Scenario.bitbucket_envelope
                                         [Scenario.bitbucket_repoX]))) in
  let r := {| name := "repoX";
              cloneURL := "https://bbuser:P@bitbucket.org/bbuser/repoX.git" |} in
  result (Sim.exec (K := K)
            (getBitBucketRepoList Scenario.bitbucket_target "/backups")
            Sim.empty_files) = ([r], None) ∧
  cloneURL r ≠ "".
Proof.
  intros K r.
  assert (result (Sim.exec (K := K)
            (getBitBucketRepoList Scenario.bitbucket_target "/backups")
            Sim.empty_files) = ([r], None)) as Hres by (vm_compute; reflexivity).
  split; [exact Hres|].
  exact (bitbucket_descriptors_have_url K Sim.empty_files []
           Scenario.bitbucket_target "/backups" [r] r Hres
           (list_elem_of_here _ _)).
Defined.

(** X8. The search for the https clone link does not stop at the first
    match: the URL taken is the [href] of the last link named [https],
    whatever the links before it are. *)
Theorem https_link_last_wins (pre post : list (gmap string string))
    (link : gmap string string) :
  link !!! "name" = "https" →
  (∀ l, l ∈ post → l !!! "name" ≠ "https") →
  https_link (pre ++ link :: post) = link !!! "href".
Proof.
  intros Hname Hpost. unfold https_link.
  rewrite foldl_app. cbn [foldl]. rewrite decide_True by done.
  by apply https_scan_absent.
Qed.

Lemma https_link_last_wins_witness :
  https_link [ {[ "name" := "https"; "href" := "https://one" ]};
               {[ "name" := "ssh"; "href" := "ssh://two" ]};
               {[ "name" := "https" ]};
               {[ "name" := "ssh"; "href" := "ssh://four" ]} ] = "".
Proof.
  exact (https_link_last_wins
           [ {[ "name" := "https"; "href" := "https://one" ]};
             {[ "name" := "ssh"; "href" := "ssh://two" ]} ]
           [ {[ "name" := "ssh"; "href" := "ssh://four" ]} ]
           {[ "name" := "https" ]} eq_refl
           ltac:(intros l ->%list_elem_of_singleton; vm_compute; discriminate)).
Defined.

(** X9. When the bitbucket listing returns no error, the descriptor at
    the place of an item whose name is a string and whose https clone link
    is [https://<entity>@] followed by some rest has that name and the URL
    [https://<entity>:<password>@] followed by the same rest. *)
Theorem bitbucket_credentials_embedded (K : machine) (w : world K)
    (tr : list event) (target : gmap string string) (backupDirectory : string)
    (envelope : list (string * value)) (items : list value)
    (l : list repository) (i : nat) (item links : list (string * value))
    (clone : value) (cloneLinks : list (gmap string string)) (n rest : string) :
  http K w (bitbucket_requestURL target) = Body (Encoded (Object envelope)) →
  member envelope "values" = Some (Array items) →
  result (getBitBucketRepoList target backupDirectory (w, tr)) = (l, None) →
  items !! i = Some (Object item) →
  member item "name" = Some (Str n) →
  member item "links" = Some (Object links) →
  member links "clone" = Some clone →
  Unmarshal_slice_map_string (Encoded clone) = inl cloneLinks →
  https_link cloneLinks = "https://" +:+ target !!! "entity" +:+ "@" +:+ rest →
  l !! i =
  Some {| name := n;
          cloneURL := "https://" +:+ target !!! "entity" +:+ ":" +:+
                      target !!! "password" +:+ "@" +:+ rest |}.
Proof.
  intros Hbody Hvalues Hres Hi Hn Hlinks Hclone Hdec Hurl.
  rewrite (getBitBucketRepoList_body _ _ _ _ _ Hbody), result_pair in Hres.
  destruct (bitbucket_decode_ok _ _ _ _ Hvalues Hres) as (data & Hdata & Hl).
  apply traverse_Forall2 in Hdata, Hl.
  destruct (Forall2_lookup_l _ _ _ _ _ Hdata Hi) as (repo & Hrepo & Hrepo').
  rewrite into_map_any in Hrepo'. injection Hrepo' as <-.
  destruct (Forall2_lookup_l _ _ _ _ _ Hl Hrepo) as (r & -> & Hr).
  f_equal. unfold bitbucket_item in Hr. unfold index in Hr.
  unfold member in Hn, Hlinks, Hclone. rewrite Hn, Hlinks in Hr.
  unfold Unmarshal_string, Unmarshal_map_RawMessage in Hr.
  rewrite !Unmarshal_Encoded, into_map_any in Hr. cbn [into_string] in Hr.
  rewrite Hclone, Hdec, Hurl in Hr.
  rewrite decide_False in Hr by done. injection Hr as <-. f_equal.
  unfold bitbucket_cloneURL.
  rewrite Sprintf_bitbucket_unauth, Sprintf_bitbucket_auth.
  rewrite <- !string_app_assoc. rewrite Replace_at_prefix.
  by rewrite !string_app_assoc.
Qed.

Lemma bitbucket_credentials_embedded_witness :
  ∃ l,
    result (Sim.exec (K := Sim.sim (Sim.serve (Object (Scenario.bitbucket_envelope
                          [Scenario.bitbucket_repoX]))))
              (getBitBucketRepoList Scenario.bitbucket_target "/backups")
              Sim.empty_files) = (l, None) ∧
    l !! 0 = Some {| name := "repoX";
                     cloneURL := "https://bbuser:P@bitbucket.org/bbuser/repoX.git" |}.
Proof.
  eexists. split; [vm_compute; reflexivity|].
  exact (bitbucket_credentials_embedded
           (Sim.sim (Sim.serve (Object (Scenario.bitbucket_envelope
                      [Scenario.bitbucket_repoX]))))
           Sim.empty_files [] Scenario.bitbucket_target "/backups"
           _ _ _ 0 _ _ _ _ "repoX" "bitbucket.org/bbuser/repoX.git"
           eq_refl eq_refl ltac:(vm_compute; reflexivity) eq_refl eq_refl eq_refl
           eq_refl ltac:(vm_compute; reflexivity) ltac:(vm_compute; reflexivity)).
Defined.

End BitBucketLinkProperties.

(** ** The sync: what is printed, and where the mirror is *)

Section SyncReports.

(** X10. When the git command of a sync fails, the sync prints the error
    of the command and nothing of its output: after the command the trace
    holds the one line [Error cloning the repository: <error>] (or [Error
    pulling in the repository: <error>] for a fetch), whatever the command
    wrote. *)
Theorem sync_failure_prints_error_only (K : machine) (w : world K)
    (tr : list event) (targetName repoName cloneURL backupDirectory : string)
    (e : error) :
  let cloneDirectory := filepath.Join [backupDirectory; targetName; repoName] in
  let absent := IsNotExist (stat K w cloneDirectory) in
  let cmd := if absent then clone_command cloneURL cloneDirectory
             else fetch_command cloneURL cloneDirectory in
  let r := backupRepository targetName repoName cloneURL backupDirectory (w, tr) in
  (run K w cmd).1.2 = Some e →
  trace r =
  tr ++ prologue repoName cloneDirectory
          (if absent then "Cloning " +:+ cloneURL +:+ " to " +:+ cloneDirectory
           else "Pulling git repo in " +:+ cloneDirectory)
     ++ [CombinedOutput cmd;
         Println ((if absent then "Error cloning the repository:"
                   else "Error pulling in the repository:") +:+ " " +:+ e)].
Proof.
  intros cloneDirectory absent cmd r Hrun. subst r cmd absent.
  rewrite backupRepository_run. fold cloneDirectory.
  destruct (IsNotExist (stat K w cloneDirectory)); unfold trace; cbn [fst snd];
    unfold clone_trace, fetch_trace, outcome; by rewrite Hrun.
Qed.

Lemma sync_failure_prints_error_only_witness :
  trace (Sim.exec (K := broken_git (Sim.serve json.Null))
           (backupRepository "acme" "infra" "https://u" "/backups")
           Sim.empty_files)
  = prologue "infra" "/backups/acme/infra"
      "Cloning https://u to /backups/acme/infra"
    ++ [CombinedOutput (clone_command "https://u" "/backups/acme/infra");
        Println "Error cloning the repository: exit status 128"].
Proof.
  exact (sync_failure_prints_error_only (broken_git (Sim.serve json.Null))
           Sim.empty_files [] "acme" "infra" "https://u" "/backups"
           "exit status 128" eq_refl).
Defined.

End SyncReports.

(** ** Mirror paths of plain names *)

Section MirrorPaths.
Import GoStrings.

Lemma HasPrefix_empty (s : string) : HasPrefix s "" = true.
Proof. by destruct s. Qed.

Lemma HasPrefix_sep_cons (c : ascii) (s : string) :
  HasPrefix (String c s) "/" = bool_decide (c = "/"%char).
Proof.
  simpl. destruct (decide ("/"%char = c)) as [<-|Hne].
  - by rewrite HasPrefix_empty.
  - by rewrite bool_decide_eq_false_2.
Qed.

Lemma elements_nonempty (path : string) : filepath.elements path ≠ [].
Proof.
  induction path as [|c path IH]; [done|]. simpl.
  destruct (decide _); [done|]. by destruct (filepath.elements path).
Qed.

(** The elements of two paths joined by a separator. *)
Lemma elements_app_sep (a b : string) :
  filepath.elements (a +:+ "/" +:+ b) = filepath.elements a ++ filepath.elements b.
Proof.
  induction a as [|c a IH].
  - rewrite string_app_empty_l. reflexivity.
  - rewrite string_app_cons. simpl. rewrite IH.
    destruct (decide _); [done|].
    pose proof (elements_nonempty a). by destruct (filepath.elements a).
Qed.

(** No element starts with a separator. *)
Lemma elements_no_sep (path e : string) :
  e ∈ filepath.elements path → HasPrefix e "/" = false.
Proof.
  revert e. induction path as [|c path IH]; intros e; simpl.
  - by intros ->%list_elem_of_singleton.
  - destruct (decide (c = filepath.Separator)) as [->|Hc].
    + intros [->|He]%elem_of_cons; [done|by apply IH].
    + pose proof (elements_nonempty path).
      destruct (filepath.elements path) as [|e0 es]; [done|].
      intros [->|He]%elem_of_cons.
      * rewrite HasPrefix_sep_cons. by apply bool_decide_eq_false_2.
      * apply IH. by right.
Qed.

Lemma clean_step_kept (rooted : bool) (out : list string) (e : string) :
  Forall kept out → HasPrefix e "/" = false →
  Forall kept (filepath.clean_step rooted out e).
Proof.
  intros Hout He. unfold filepath.clean_step.
  destruct (decide (e = "" ∨ e = ".")) as [|Hne]; [done|].
  assert (kept e) by (unfold kept; naive_solver).
  destruct (decide (e = "..")).
  - destruct out as [|top out]; [by destruct rooted; [|constructor]|].
    destruct (decide (top = "..")).
    + destruct rooted; [done|by constructor].
    + by inversion Hout.
  - by constructor.
Qed.

Lemma clean_scan_kept (rooted : bool) (es out : list string) :
  Forall kept out → (∀ e, e ∈ es → HasPrefix e "/" = false) →
  Forall kept (foldl (filepath.clean_step rooted) out es).
Proof.
  revert out. induction es as [|e es IH]; intros out Hout Hes; [done|].
  simpl. apply IH.
  - apply clean_step_kept; [done|]. apply Hes. by left.
  - intros e' He'. apply Hes. by right.
Qed.

Lemma Join_snoc (l : list string) (x sep : string) :
  l ≠ [] → Join (l ++ [x]) sep = Join l sep +:+ sep +:+ x.
Proof.
  induction l as [|e l IH]; [done|]. intros _.
  destruct l as [|e' l]; [reflexivity|].
  change (Join ((e :: e' :: l) ++ [x]) sep)
    with (e +:+ sep +:+ Join ((e' :: l) ++ [x]) sep).
  rewrite IH by done.
  change (Join (e :: e' :: l) sep) with (e +:+ sep +:+ Join (e' :: l) sep).
  by rewrite !string_app_assoc.
Qed.

Lemma Join_kept (l : list string) :
  l ≠ [] → Forall kept l →
  Join l "/" ≠ "" ∧ Join l "/" ≠ "." ∧ Join l "/" ≠ "/".
Proof.
  destruct l as [|e l]; [done|]. intros _ Hall.
  inversion Hall as [|? ? (He1 & He2 & He3) _]; subst.
  destruct l as [|e' l].
  - simpl. repeat split; [done..|]. by intros ->.
  - change (Join (e :: e' :: l) "/") with (e +:+ "/" +:+ Join (e' :: l) "/").
    destruct e as [|c e]; [done|]. rewrite string_app_cons.
    rewrite HasPrefix_sep_cons in He3. apply bool_decide_eq_false_1 in He3.
    repeat split; [done| |].
    + intros [= _ H]. by destruct e.
    + by intros [= -> _].
Qed.

(** The mirror path of a plain name is the entry of that name in the
    joined directory. *)
Lemma Join_plain_name (backupDirectory targetName repoName : string) :
  backupDirectory ≠ "" → plain_name repoName →
  filepath.Join [backupDirectory; targetName; repoName] =
  entry_of (filepath.Join [backupDirectory; targetName]) repoName.
Proof.
  intros Hroot (Hn1 & Hn2 & Hn3 & Hn4).
  unfold filepath.Join. rewrite !decide_False by done.
  change (Join [backupDirectory; targetName; repoName] "/")
    with (backupDirectory +:+ "/" +:+ targetName +:+ "/" +:+ repoName).
  change (Join [backupDirectory; targetName] "/")
    with (backupDirectory +:+ "/" +:+ targetName).
  rewrite <- (string_app_assoc backupDirectory "/" (targetName +:+ "/" +:+ repoName)).
  rewrite <- (string_app_assoc (backupDirectory +:+ "/") targetName ("/" +:+ repoName)).
  rewrite (string_app_assoc backupDirectory "/" targetName).
  set (p := backupDirectory +:+ "/" +:+ targetName).
  assert (∃ c p', p = String c p') as (c & p' & Hp).
  { subst p. destruct backupDirectory as [|c b]; [done|].
    rewrite string_app_cons. eauto. }
  unfold filepath.Clean.
  rewrite (decide_False (P := p = "")) by (by rewrite Hp).
  rewrite (decide_False (P := p +:+ "/" +:+ repoName = ""))
    by (by rewrite Hp, string_app_cons).
  assert (HasPrefix (p +:+ "/" +:+ repoName) "/" = HasPrefix p "/") as ->.
  { by rewrite Hp, string_app_cons, !HasPrefix_sep_cons. }
  rewrite elements_app_sep, Hn4, foldl_app. cbn [foldl].
  set (rooted := HasPrefix p "/").
  set (out := foldl (filepath.clean_step rooted) [] (filepath.elements p)).
  assert (Forall kept out) as Hout.
  { apply clean_scan_kept; [constructor|]. intros e. apply elements_no_sep. }
  assert (filepath.clean_step rooted out repoName = repoName :: out) as ->.
  { unfold filepath.clean_step.
    rewrite decide_False by (by intros [|]). by rewrite decide_False. }
  rewrite reverse_cons. unfold entry_of.
  destruct (decide (out = [])) as [->|Hne].
  - cbn [reverse app Join]. destruct rooted.
    + rewrite string_app_empty_r. by rewrite decide_True.
    + rewrite (decide_True (P := "" = "")) by done.
      rewrite (decide_False (P := repoName = "")) by done.
      rewrite (decide_False (P := "." = "/")) by done.
      by rewrite decide_True.
  - assert (reverse out ≠ []) as Hrev.
    { intros H. apply Hne. by rewrite <- (reverse_involutive out), H. }
    rewrite Join_snoc by done.
    destruct (Join_kept (reverse out) Hrev) as (Hb1 & Hb2 & Hb3).
    { by apply Forall_reverse. }
    destruct rooted.
    + rewrite (decide_False (P := "/" +:+ Join (reverse out) "/" = "/")).
      2:{ intros [= H]. done. }
      rewrite (decide_False (P := "/" +:+ Join (reverse out) "/" = ".")) by done.
      by rewrite !string_app_assoc.
    + rewrite (decide_False (P := Join (reverse out) "/" = "")) by done.
      rewrite (decide_False (P := Join (reverse out) "/" +:+ "/" +:+ repoName = "")).
      2:{ destruct (Join (reverse out) "/"); [done|by rewrite string_app_cons]. }
      rewrite (decide_False (P := Join (reverse out) "/" = "/")) by done.
      by rewrite (decide_False (P := Join (reverse out) "/" = ".")).
Qed.

End MirrorPaths.

Section MirrorPathProperties.
Import GoStrings.

(** X11. For a backup root that is not empty and a repository name that is
    a plain name (not empty, not [.] or [..], without separator), the mirror
    path that the sync stats and runs git on is the entry of that name in
    the directory [filepath.Join(backupDirectory, targetName)]: the name is
    its last element. *)
Theorem sync_path_of_plain_name (K : machine) (w : world K) (tr : list event)
    (targetName repoName cloneURL backupDirectory : string) :
  let dir := entry_of (filepath.Join [backupDirectory; targetName]) repoName in
  let r := backupRepository targetName repoName cloneURL backupDirectory (w, tr) in
  backupDirectory ≠ "" →
  plain_name repoName →
  stats (trace r) = stats tr ++ [dir] ∧
  (commands (trace r) = commands tr ++ [clone_command cloneURL dir] ∨
   commands (trace r) = commands tr ++ [fetch_command cloneURL dir]).
Proof.
  intros dir r Hroot Hplain. subst r dir.
  rewrite <- (Join_plain_name _ _ _ Hroot Hplain).
  destruct (backupRepository_effect w tr targetName repoName cloneURL
              backupDirectory) as (w' & added & -> & _ & Hs & Hc).
  unfold trace. cbn [fst snd]. rewrite stats_app, commands_app, Hs.
  split; [done|]. destruct Hc as [-> | ->]; auto.
Qed.

Lemma sync_path_of_plain_name_witness :
  let r := Sim.exec (K := Sim.sim (Sim.serve json.Null))
             (backupRepository "acme" "infra" "https://u" "/backups//")
             Sim.empty_files in
  stats (trace r) = ["/backups/acme/infra"] ∧
  (commands (trace r) = [clone_command "https://u" "/backups/acme/infra"] ∨
   commands (trace r) = [fetch_command "https://u" "/backups/acme/infra"]).
Proof.
  intros r.
  exact (sync_path_of_plain_name (Sim.sim (Sim.serve json.Null)) Sim.empty_files []
           "acme" "infra" "https://u" "/backups//" ltac:(discriminate)
           ltac:(repeat split; discriminate || reflexivity)).
Defined.

(** X12. Under one backup root that is not empty and one target, two
    repositories with different plain names have different mirror paths:
    their mirrors never share a directory. *)
Theorem plain_names_have_distinct_mirrors (target : gmap string string)
    (backupDirectory : string) (repo1 repo2 : repository) :
  backupDirectory ≠ "" →
  plain_name (name repo1) →
  plain_name (name repo2) →
  mirror_path target backupDirectory repo1 = mirror_path target backupDirectory repo2 →
  name repo1 = name repo2.
Proof.
  intros Hroot H1 H2. unfold mirror_path.
  rewrite (Join_plain_name _ _ _ Hroot H1), (Join_plain_name _ _ _ Hroot H2).
  unfold entry_of.
  destruct (decide _); [by intros ?%(inj (String.app _))|].
  destruct (decide _); [done|].
  intros ?%(inj (String.app _)). by apply (inj (String.app "/")).
Qed.

Lemma plain_names_have_distinct_mirrors_witness :
  mirror_path Scenario.github_target "/backups" {| name := "infra"; cloneURL := "a" |}
  ≠ mirror_path Scenario.github_target "/backups" {| name := "infra2"; cloneURL := "a" |}.
Proof.
  intros H.
  pose proof (plain_names_have_distinct_mirrors Scenario.github_target "/backups"
                {| name := "infra"; cloneURL := "a" |}
                {| name := "infra2"; cloneURL := "a" |}
                ltac:(discriminate)
                ltac:(repeat split; discriminate || reflexivity)
                ltac:(repeat split; discriminate || reflexivity) H) as Hn.
  discriminate Hn.
Defined.

End MirrorPathProperties.

(** ** From the listing to the mirrors *)

Section EndToEnd.
Import json.



End EndToEnd.
